(** * Review-AI: the keyword sampler, the prompt composer and the HTTP handlers

    A shallow embedding of [main.py].  The program is written against three
    pieces of global state, which the embedding threads explicitly:

    - the Python heap, as far as the program touches it: list objects are
      stored at locations and read or written through them, so that
      in-place updates ([random.shuffle], the pool of [random.sample]) and
      aliasing are visible.  A list that is built by one expression and
      only read afterwards (a comprehension, the result of
      [random.choices], the sum of two lists before it is added to a
      third) is a value;
    - the state of the [random] module, a tape of raw draws;
    - the two external collaborators (the text-generation service and the
      places service), as oracles of the environment together with a log
      of the calls made to them.

    Typing.  Python is untyped; the embedding fixes the types the program
    is written for: keyword lists are lists of [str], and an SEO entry is
    a record with a [word] and an integer [weight].  What comes from
    outside is not typed: the body of a review-generation request is
    whatever [request.get_json()] gives -- an exception, or any JSON
    value -- and so is the answer of the places service.  When the
    [selectedKeywords] of a request is not a list of strings,
    [generate_prompt] is run by its second embedding,
    [generate_prompt_other].

    Left out: what is printed, the start of the process (the check of
    [GROQ_API_KEY]) and the route that serves [index.html]. *)

From Stdlib Require Import ZArith QArith Lia Ascii DecimalString.
From stdpp Require Import base tactics option list strings.

Local Open Scope nat_scope.

(** ** Exceptions and outcomes *)

Inductive exn_class :=
| ValueError | IndexError | KeyError | TypeError | AttributeError
| OverflowError
| CollaboratorError.   (* raised by the Groq client or by [requests] *)

Record exn := Exn { exn_class_of : exn_class; exn_msg : string }.

(** [str(e)]: the message carried by the exception. *)
Definition str_exn (e : exn) : string := exn_msg e.

(** What running a piece of code gives: a value, a raised exception, or no
    answer at all (a loop that never ends). *)
Inductive outcome (A : Type) :=
| Ok (a : A)
| Raise (e : exn)
| Diverge.
Arguments Ok {A} a.
Arguments Raise {A} e.
Arguments Diverge {A}.

(** ** The data model *)

Record seo_entry := SeoEntry { word : string; weight : Z }.

Set Warnings "-register-all".

(** Parsed JSON; Python's [None] is [JNull].  Numbers are integers: the
    program never computes with a number of a JSON document, it only tests
    it for truth (and names its type in the message of an error). *)
Inductive json :=
| JNull
| JBool (b : bool)
| JInt (z : Z)
| JStr (s : string)
| JList (l : list json)
| JObject (d : list (string * json)).

Definition loc := nat.

(** A call to an external collaborator. *)
Inductive call :=
| GroqCall (model system user : string) (temperature : Q) (max_tokens : Z)
| PlacesCall (url input inputtype fields key : string).

(** The mutable state of the process. [strs] holds the list objects whose
    items are strings, [seos] the list objects whose items are SEO
    entries; a location is an index into one of them.  Objects are never
    freed. *)
Record world := World {
  strs : list (list string);
  seos : list (list seo_entry);
  tape : list nat;
  calls : list call
}.

Definition set_strs (h : list (list string)) (w : world) : world :=
  World h (seos w) (tape w) (calls w).
Definition set_seos (h : list (list seo_entry)) (w : world) : world :=
  World (strs w) h (tape w) (calls w).
Definition set_tape (t : list nat) (w : world) : world :=
  World (strs w) (seos w) t (calls w).
Definition set_calls (c : list call) (w : world) : world :=
  World (strs w) (seos w) (tape w) c.

(** ** The monad of the program: state and exceptions *)

Definition M (A : Type) : Type := world -> outcome A * world.

Definition ret {A} (a : A) : M A := fun w => (Ok a, w).
Definition raise {A} (e : exn) : M A := fun w => (Raise e, w).

Definition bind {A B} (m : M A) (f : A -> M B) : M B :=
  fun w =>
    match m w with
    | (Ok a, w') => f a w'
    | (Raise e, w') => (Raise e, w')
    | (Diverge, w') => (Diverge, w')
    end.

(** [try: m except Exception as e: h e].  State changes made before the
    exception stay. *)
Definition try_except {A} (m : M A) (h : exn -> M A) : M A :=
  fun w =>
    match m w with
    | (Raise e, w') => h e w'
    | r => r
    end.

Notation "x <- m ;; k" := (bind m (fun x => k))
  (at level 100, m at next level, right associativity).
Notation "m ;;; k" := (bind m (fun _ => k))
  (at level 100, right associativity).

(** ** List objects *)

(** [len(x)] and reading the items of the object at [l]. *)
Definition items (l : loc) (w : world) : list string :=
  default [] (strs w !! l).

Definition read_list (l : loc) : M (list string) :=
  fun w => (Ok (items l w), w).

Definition read_seo_list (l : loc) : M (list seo_entry) :=
  fun w => (Ok (default [] (seos w !! l)), w).

(** A new list object. *)
Definition new_list (xs : list string) : M loc :=
  fun w => (Ok (length (strs w)), set_strs (strs w ++ [xs]) w).

Definition new_seo_list (xs : list seo_entry) : M loc :=
  fun w => (Ok (length (seos w)), set_seos (seos w ++ [xs]) w).

(** [x[i]] on a list object. *)
Definition getitem (l : loc) (i : nat) : M string :=
  fun w =>
    match items l w !! i with
    | Some v => (Ok v, w)
    | None => (Raise (Exn IndexError "list index out of range"), w)
    end.

(** [x[i] = v] on a list object. *)
Definition setitem (l : loc) (i : nat) (v : string) : M unit :=
  fun w =>
    if decide (i < length (items l w))
    then (Ok tt, set_strs (<[l := <[i := v]> (items l w)]> (strs w)) w)
    else (Raise (Exn IndexError "list assignment index out of range"), w).

(** [x[i]] on a list that is a local value. *)
Definition index {A} (xs : list A) (i : nat) : M A :=
  match xs !! i with
  | Some v => ret v
  | None => raise (Exn IndexError "list index out of range")
  end.

(** ** The [random] module

    The generator is a tape of raw draws, read left to right; past its end
    every draw is [0].  [_randbelow(n)] answers with a number below [n] for
    [n > 0]; for [n = 0] its loop [while r >= n] has no end.  [random()]
    answers with a multiple of [2^-53] in [[0, 1)]. *)

Definition next_raw : M nat :=
  fun w =>
    match tape w with
    | [] => (Ok 0, w)
    | r :: t => (Ok r, set_tape t w)
    end.

Definition diverge {A} : M A := fun w => (Diverge, w).

Definition randbelow (n : nat) : M nat :=
  if decide (n = 0) then diverge
  else r <- next_raw ;; ret (r mod n).

Definition random : M Q :=
  r <- next_raw ;;
  ret (Qmake (Z.of_nat r mod 2 ^ 53) (2 ^ 53)).

(** [random.sample(population, k)], for a population that is a list object.

    [sample_pool] is the loop over the pool (a copy of the population, the
    only object it writes to), [sample_set] the loop that draws positions
    again until one is new.  [result], filled from left to right, is built
    as a value and becomes a list object on return. *)

Fixpoint sample_pool (pool : loc) (n i todo : nat) : M (list string) :=
  match todo with
  | 0 => ret []
  | S todo' =>
      j <- randbelow (n - i) ;;
      x <- getitem pool j ;;
      y <- getitem pool (n - i - 1) ;;
      setitem pool j y ;;;
      rest <- sample_pool pool n (S i) todo' ;;
      ret (x :: rest)
  end.

(** [j = randbelow(n); while j in selected: j = randbelow(n)].  The loop
    reads the tape until a draw is new; on the tail of zeros it either
    stops at once or never. *)
Fixpoint draw_new (n : nat) (selected : list nat) (t : list nat)
  : outcome nat * list nat :=
  match t with
  | [] => if decide (0 ∈ selected) then (Diverge, []) else (Ok 0, [])
  | r :: t' =>
      let j := r mod n in
      if decide (j ∈ selected) then draw_new n selected t' else (Ok j, t')
  end.

Definition randbelow_new (n : nat) (selected : list nat) : M nat :=
  if decide (n = 0) then diverge
  else fun w =>
         let '(r, t) := draw_new n selected (tape w) in (r, set_tape t w).

Fixpoint sample_set (population : loc) (n : nat) (selected : list nat)
    (todo : nat) : M (list string) :=
  match todo with
  | 0 => ret []
  | S todo' =>
      j <- randbelow_new n selected ;;
      x <- getitem population j ;;
      rest <- sample_set population n (j :: selected) todo' ;;
      ret (x :: rest)
  end.

(** [21 + 4 ** ceil(log(3k, 4))] for [k > 5], in integers. *)
Definition setsize (k : nat) : nat :=
  if decide (5 < k) then 21 + 4 ^ ((Nat.log2_up (k * 3) + 1) / 2) else 21.

Definition sample (population : loc) (k : nat) : M loc :=
  pop <- read_list population ;;
  let n := length pop in
  if decide (k <= n) then
    if decide (n <= setsize k) then
      pool <- new_list pop ;;
      result <- sample_pool pool n 0 k ;;
      new_list result
    else
      result <- sample_set population n [] k ;;
      new_list result
  else raise (Exn ValueError "Sample larger than population or is negative").

(** [itertools.accumulate] on integers. *)
Fixpoint accumulate_from (acc : Z) (xs : list Z) : list Z :=
  match xs with
  | [] => []
  | x :: xs' => (acc + x)%Z :: accumulate_from (acc + x)%Z xs'
  end.

Definition accumulate (xs : list Z) : list Z := accumulate_from 0 xs.

(** [bisect.bisect_right(a, x, lo, hi)]: the loop runs while [lo < hi], and
    [hi - lo] shrinks at every turn. *)
Fixpoint bisect_loop (fuel : nat) (a : list Z) (x : Q) (lo hi : nat) : nat :=
  match fuel with
  | 0 => lo
  | S fuel' =>
      if decide (lo < hi) then
        let mid := (lo + hi) / 2 in
        if Qle_bool (inject_Z (default 0%Z (a !! mid))) x
        then bisect_loop fuel' a x (mid + 1) hi
        else bisect_loop fuel' a x lo mid
      else lo
  end.

Definition bisect (a : list Z) (x : Q) (lo hi : nat) : nat :=
  bisect_loop (hi - lo) a x lo hi.

(** The largest integer that still converts to a float is below
    [2^1024 - 2^970]. *)
Definition float_overflow (z : Z) : bool :=
  (2 ^ 1024 - 2 ^ 970 <=? Z.abs z)%Z.

Fixpoint repeatM {A} (k : nat) (m : M A) : M (list A) :=
  match k with
  | 0 => ret []
  | S k' => x <- m ;; xs <- repeatM k' m ;; ret (x :: xs)
  end.

(** [random.choices(population, weights=weights, k=k)] with integer
    weights.  The product [random() * total] is taken exactly (Python
    rounds it to a float); [bisect] is given [hi = n - 1], which bounds the
    position whatever the product is. *)
Definition choices (population : list string) (weights : list Z) (k : nat)
  : M (list string) :=
  let n := length population in
  let cum_weights := accumulate weights in
  if decide (length cum_weights = n) then
    match last cum_weights with
    | None => raise (Exn IndexError "list index out of range")
    | Some total =>
        if float_overflow total
        then raise (Exn OverflowError "int too large to convert to float")
        else if (total <=? 0)%Z
        then raise (Exn ValueError "Total of weights must be greater than zero")
        else
          repeatM k
            (u <- random ;;
             index population
               (bisect cum_weights (u * inject_Z total) 0 (n - 1)))
    end
  else raise (Exn ValueError
                "The number of weights does not match the population").

(** [random.shuffle(x)]: [for i in reversed(range(1, len(x)))], swapping
    [x[i]] with [x[j]] in place. *)
Fixpoint shuffle_loop (x : loc) (i : nat) : M unit :=
  match i with
  | 0 => ret tt
  | S i' =>
      j <- randbelow (i + 1) ;;
      xj <- getitem x j ;;
      xi <- getitem x i ;;
      setitem x i xj ;;;
      setitem x j xi ;;;
      shuffle_loop x i'
  end.

Definition shuffle (x : loc) : M unit :=
  xs <- read_list x ;;
  shuffle_loop x (length xs - 1).

(** ** Strings *)

Definition LF : string := String "010"%char "".

(** [sep.join(xs)] *)
Definition join (sep : string) (xs : list string) : string :=
  String.concat sep xs.

(** [sub in s] on strings, as a proposition. *)
Definition contains (s sub : string) : Prop :=
  exists pre post : string, s = pre +:+ sub +:+ post.

(** ** main.py: the keyword table and the prompt composer *)

Definition RESTAURANT_NAME : string := "Hari Krushna Dal Pakwan".
Definition RESTAURANT_ADDRESS : string :=
  "24, Ambika Pinakal, Lajamni Chowk, Maruti Dham Society, Mota Varachha, Surat, Gujarat 394101".
Definition LLAMA_MODEL : string := "llama-3.1-8b-instant".

(** The dict that [load_keywords] returns: three keys, each bound to a list
    object. *)
Record keyword_table := KeywordTable {
  user_keywords : loc;
  backend_keywords : loc;
  seo_keywords : loc
}.

Definition USER_KEYWORDS : list string :=
  [ "delicious"; "amazing"; "fantastic"; "excellent"; "outstanding";
    "tasty"; "authentic"; "fresh"; "crispy"; "spicy";
    "flavorful"; "traditional"; "hygienic"; "affordable"; "quick service";
    "friendly staff"; "clean"; "homely"; "perfect"; "mouth-watering" ].

Definition BACKEND_KEYWORDS : list string :=
  [ "highly recommend"; "great experience"; "will visit again"; "worth trying";
    "exceeded expectations"; "perfect taste"; "amazing quality"; "best in surat";
    "authentic gujarati"; "reasonable price"; "excellent service";
    "fresh preparation" ].

Definition SEO_KEYWORDS : list seo_entry :=
  [ SeoEntry "dal pakwan" 10;
    SeoEntry "gujarati food" 9;
    SeoEntry "surat restaurant" 8;
    SeoEntry "street food" 7;
    SeoEntry "traditional" 6;
    SeoEntry "authentic" 8;
    SeoEntry "quality" 7;
    SeoEntry "taste" 9;
    SeoEntry "snacks" 5;
    SeoEntry "mota varachha" 4 ].

(** Every call builds the three lists anew. *)
Definition load_keywords : M keyword_table :=
  u <- new_list USER_KEYWORDS ;;
  b <- new_list BACKEND_KEYWORDS ;;
  s <- new_seo_list SEO_KEYWORDS ;;
  ret (KeywordTable u b s).

Definition select_weighted_seo (seo_keywords : loc) (count : nat)
  : M (list string) :=
  ks <- read_seo_list seo_keywords ;;
  let words := map word ks in
  let weights := map weight ks in
  choices words weights count.

Definition prompt_text (all_keywords : list string) : string :=
  "You're a satisfied customer leaving a short review (under 50 words) about '"
  +:+ RESTAURANT_NAME +:+ "' - "
  +:+ "a popular dal pakwan restaurant in Surat, Gujarat. Make it sound human, sincere, and natural. "
  +:+ "Use the following keywords organically in the review:" +:+ LF
  +:+ join ", " all_keywords +:+ "." +:+ LF
  +:+ "Keep the tone friendly and helpful. Focus on the food quality, taste, and dining experience. "
  +:+ "Mention specific items like dal pakwan if appropriate.".

Definition generate_prompt (user_keywords : loc) (keyword_data : keyword_table)
  : M string :=
  backend <- sample (backend_keywords keyword_data) 2 ;;
  seo <- select_weighted_seo (seo_keywords keyword_data) 2 ;;
  u <- read_list user_keywords ;;
  b <- read_list backend ;;
  all_keywords <- new_list (u ++ b ++ seo) ;;
  shuffle all_keywords ;;;
  shuffled <- read_list all_keywords ;;
  ret (prompt_text shuffled).


(** ** JSON values as Python sees them *)

(** [bool(v)] *)
Definition truthy (v : json) : bool :=
  match v with
  | JNull => false
  | JBool b => b
  | JInt z => negb (z =? 0)%Z
  | JStr s => negb (String.eqb s "")
  | JList l => match l with [] => false | _ => true end
  | JObject d => match d with [] => false | _ => true end
  end.

Definition type_name (v : json) : string :=
  match v with
  | JNull => "NoneType"
  | JBool _ => "bool"
  | JInt _ => "int"
  | JStr _ => "str"
  | JList _ => "list"
  | JObject _ => "dict"
  end.

Fixpoint assoc (k : string) (d : list (string * json)) : option json :=
  match d with
  | [] => None
  | (k', v) :: d' => if String.eqb k k' then Some v else assoc k d'
  end.

(** [v.get(k)]: only a dict has the method. *)
Definition dict_get (v : json) (k : string) : M json :=
  match v with
  | JObject d => ret (default JNull (assoc k d))
  | _ => raise (Exn AttributeError
                  ("'" +:+ type_name v +:+ "' object has no attribute 'get'"))
  end.

Definition not_subscriptable {A} (v : json) : M A :=
  raise (Exn TypeError ("'" +:+ type_name v +:+ "' object is not subscriptable")).

(** [v[k]] for a string [k] *)
Definition subscript_key (v : json) (k : string) : M json :=
  match v with
  | JObject d =>
      match assoc k d with
      | Some x => ret x
      | None => raise (Exn KeyError ("'" +:+ k +:+ "'"))
      end
  | JList _ =>
      raise (Exn TypeError "list indices must be integers or slices, not str")
  | JStr _ => raise (Exn TypeError "string indices must be integers, not 'str'")
  | _ => not_subscriptable v
  end.

(** The first character of a string, which is one to four bytes of its
    UTF-8 encoding. *)
Definition first_char (s : string) : string :=
  match s with
  | EmptyString => ""
  | String c _ =>
      let b := nat_of_ascii c in
      let n := if decide (b < 192) then 1 else if decide (b < 224) then 2
               else if decide (b < 240) then 3 else 4 in
      String.substring 0 n s
  end.

(** [v[0]] *)
Definition subscript_0 (v : json) : M json :=
  match v with
  | JList l =>
      match l with
      | x :: _ => ret x
      | [] => raise (Exn IndexError "list index out of range")
      end
  | JStr s =>
      match s with
      | EmptyString => raise (Exn IndexError "string index out of range")
      | _ => ret (JStr (first_char s))
      end
  | JObject _ => raise (Exn KeyError "0")
  | _ => not_subscriptable v
  end.

(** [v == "OK"] *)
Definition is_OK (v : json) : bool :=
  match v with
  | JStr s => String.eqb s "OK"
  | _ => false
  end.

(** ** [str.strip()] and [urllib.parse.quote]

    Strings are UTF-8; the white space of Python is the list below. *)
Definition WHITESPACE : list string :=
  [ String "009" ""; String "010" ""; String "011" ""; String "012" "";
    String "013" ""; String "028" ""; String "029" ""; String "030" "";
    String "031" ""; " ";
    String "194" (String "133" ""); String "194" (String "160" "");
    String "225" (String "154" (String "128" ""));
    String "226" (String "128" (String "128" ""));
    String "226" (String "128" (String "129" ""));
    String "226" (String "128" (String "130" ""));
    String "226" (String "128" (String "131" ""));
    String "226" (String "128" (String "132" ""));
    String "226" (String "128" (String "133" ""));
    String "226" (String "128" (String "134" ""));
    String "226" (String "128" (String "135" ""));
    String "226" (String "128" (String "136" ""));
    String "226" (String "128" (String "137" ""));
    String "226" (String "128" (String "138" ""));
    String "226" (String "128" (String "168" ""));
    String "226" (String "128" (String "169" ""));
    String "226" (String "128" (String "175" ""));
    String "226" (String "129" (String "159" ""));
    String "227" (String "128" (String "128" "")) ].

(** Drop one leading white-space character, if there is one. *)
Fixpoint drop_space (spaces : list string) (s : string) : option string :=
  match spaces with
  | [] => None
  | sp :: spaces' =>
      if String.prefix sp s
      then Some (String.substring (String.length sp)
                   (String.length s - String.length sp) s)
      else drop_space spaces' s
  end.

Fixpoint lstrip_with (spaces : list string) (fuel : nat) (s : string) : string :=
  match fuel with
  | 0 => s
  | S fuel' =>
      match drop_space spaces s with
      | Some s' => lstrip_with spaces fuel' s'
      | None => s
      end
  end.

Definition lstrip (s : string) : string :=
  lstrip_with WHITESPACE (String.length s) s.

Definition rstrip (s : string) : string :=
  String.rev
    (lstrip_with (map String.rev WHITESPACE) (String.length s) (String.rev s)).

Definition strip (s : string) : string := rstrip (lstrip s).

Definition hex_digit (n : nat) : ascii :=
  ascii_of_nat (if decide (n < 10) then 48 + n else 55 + n).

(** Letters, digits and [_.-~] are never quoted, nor is [/]. *)
Definition is_safe (c : ascii) : bool :=
  let n := nat_of_ascii c in
  bool_decide (48 <= n <= 57) || bool_decide (65 <= n <= 90)
  || bool_decide (97 <= n <= 122)
  || bool_decide (n = 45) || bool_decide (n = 46) || bool_decide (n = 95)
  || bool_decide (n = 126) || bool_decide (n = 47).

Fixpoint quote (s : string) : string :=
  match s with
  | EmptyString => ""
  | String c s' =>
      (if is_safe c then String c ""
       else String "%" (String (hex_digit (nat_of_ascii c / 16))
                          (String (hex_digit (nat_of_ascii c mod 16)) "")))
      +:+ quote s'
  end.

(** ** The collaborators *)

Inductive groq_outcome :=
| GroqRaises (e : exn)
| GroqReturns (choices : list (option string)).
  (* [choices[i].message.content], which may be [None] *)

Inductive places_outcome :=
| RequestRaises (e : exn)      (* [requests.get] raises: the service is unreachable *)
| JsonRaises (e : exn)         (* [resp.json()] raises: the body is not JSON *)
| Parsed (data : json).

(** The environment of the process: the places key, what the collaborators
    answer given the calls made so far (the present one first), and
    Python's [str()] on a JSON value that is not a string. *)
Record env := Env {
  GOOGLE_PLACES_API_KEY : option string;
  groq_answer : list call -> groq_outcome;
  places_answer : list call -> places_outcome;
  str_other : json -> string
}.

(** [f"{v}"] *)
Definition format_value (E : env) (v : json) : string :=
  match v with
  | JStr s => s
  | _ => str_other E v
  end.

Definition log_call (c : call) : M (list call) :=
  fun w => (Ok (c :: calls w), set_calls (c :: calls w) w).

Definition SYSTEM_PROMPT : string :=
  "You are a helpful assistant who writes authentic restaurant reviews for Gujarati cuisine, especially dal pakwan.".

(** [client.chat.completions.create(...)] *)
Definition groq_call (prompt : string) : call :=
  GroqCall LLAMA_MODEL SYSTEM_PROMPT prompt (8 # 10) 150.

Definition chat_completions_create (E : env) (prompt : string)
  : M (list (option string)) :=
  history <- log_call (groq_call prompt) ;;
  match groq_answer E history with
  | GroqRaises e => raise e
  | GroqReturns choices => ret choices
  end.

Definition PLACES_URL : string :=
  "https://maps.googleapis.com/maps/api/place/findplacefromtext/json".

Definition places_call (key : string) : call :=
  PlacesCall PLACES_URL (RESTAURANT_NAME +:+ " " +:+ RESTAURANT_ADDRESS)
    "textquery" "place_id,name,formatted_address" key.

(** [requests.get(url, params=params)] followed by [resp.json()] *)
Definition requests_get_json (E : env) (key : string) : M json :=
  history <- log_call (places_call key) ;;
  match places_answer E history with
  | RequestRaises e => raise e
  | JsonRaises e => raise e
  | Parsed data => ret data
  end.

(** ** main.py: the place lookup and the handlers *)

Definition get_google_place_id (E : env) : M json :=
  match GOOGLE_PLACES_API_KEY E with
  | None => ret JNull
  | Some key =>
      if String.eqb key "" then ret JNull
      else
        try_except
          (data <- requests_get_json E key ;;
           status <- dict_get data "status" ;;
           candidates <- (if is_OK status then dict_get data "candidates"
                          else ret (JBool false)) ;;
           if truthy candidates then
             cs <- subscript_key data "candidates" ;;
             c <- subscript_0 cs ;;
             subscript_key c "place_id"
           else
             dict_get data "status" ;;; ret JNull)
          (fun e => ret JNull)
  end.

Record response := Response { status : nat; body : json }.

(** The body of a review-generation request, as [request.get_json()]
    gives it: the call raises (the request has no JSON content type, or
    its text is not JSON), or it returns the parsed value, which is any
    JSON value: an object, but also [null], a list, a string. *)
Inductive request_body :=
| NotJson (e : exn)
| Json (data : json).

Definition get_json (req : request_body) : M json :=
  match req with
  | NotJson e => raise e
  | Json data => ret data
  end.

(** The items of a JSON list, when they are all strings. *)
Fixpoint as_strings (items : list json) : option (list string) :=
  match items with
  | [] => Some []
  | JStr s :: items' =>
      match as_strings items' with
      | Some ss => Some (s :: ss)
      | None => None
      end
  | _ => None
  end.

(** What the handler holds in [selected]: a list object whose items are
    strings, or any other value. *)
Inductive pyval :=
| PList (l : loc)
| PJson (v : json).

Definition no_get_error (v : json) : exn :=
  Exn AttributeError ("'" +:+ type_name v +:+ "' object has no attribute 'get'").

(** [data.get("selectedKeywords", [])].  Only a dict has the method; the
    default [[]] is a new list whether it is used or not.  A list of
    strings under the key is the list object that the parser built. *)
Definition get_selected (data : json) : M pyval :=
  match data with
  | JObject d =>
      match assoc "selectedKeywords" d with
      | Some (JList items) =>
          match as_strings items with
          | Some ks => l <- new_list ks ;; new_list [] ;;; ret (PList l)
          | None => new_list [] ;;; ret (PJson (JList items))
          end
      | Some v => new_list [] ;;; ret (PJson v)
      | None => dflt <- new_list [] ;; ret (PList dflt)
      end
  | _ => raise (no_get_error data)
  end.

(** [bool(selected)] *)
Definition truth_of (selected : pyval) : M bool :=
  match selected with
  | PList l =>
      xs <- read_list l ;;
      ret (match xs with [] => false | _ => true end)
  | PJson v => ret (truthy v)
  end.

(** ** [generate_prompt] on keywords that are not a list of strings

    The same function of main.py, for the other values that a request can
    put under [selectedKeywords].  The two samples are taken first.  Then
    [user_keywords + backend] raises unless [user_keywords] is a list; for
    a list the sum is built and shuffled, and [join] raises at the first
    item that is not a string. *)

Definition DQUOTE : string := String "034"%char "".

(** The [TypeError] of [v + backend] for a [v] that is not a list. *)
Definition concat_error (v : json) : exn :=
  Exn TypeError
    (match v with
     | JStr _ =>
         "can only concatenate str (not " +:+ DQUOTE +:+ "list" +:+ DQUOTE
         +:+ ") to str"
     | _ =>
         "unsupported operand type(s) for +: '" +:+ type_name v
         +:+ "' and 'list'"
     end).

Definition decimal (n : nat) : string :=
  NilEmpty.string_of_uint (Nat.to_uint n).

(** The items that [join] is given, from position [i] on: the strings, or
    the [TypeError] of the first item that is not one. *)
Fixpoint strings_from (i : nat) (xs : list json) : M (list string) :=
  match xs with
  | [] => ret []
  | JStr s :: xs' => ss <- strings_from (S i) xs' ;; ret (s :: ss)
  | v :: _ =>
      raise (Exn TypeError
               ("sequence item " +:+ decimal i +:+ ": expected str instance, "
                +:+ type_name v +:+ " found"))
  end.

(** [random.shuffle] on the new list of a sum, which nothing else holds. *)
Fixpoint shuffle_value_loop (xs : list json) (i : nat) : M (list json) :=
  match i with
  | 0 => ret xs
  | S i' =>
      j <- randbelow (i + 1) ;;
      xj <- index xs j ;;
      xi <- index xs i ;;
      shuffle_value_loop (<[j := xi]> (<[i := xj]> xs)) i'
  end.

Definition shuffle_value (xs : list json) : M (list json) :=
  shuffle_value_loop xs (length xs - 1).

Definition generate_prompt_other (user_keywords : json)
    (keyword_data : keyword_table) : M string :=
  backend <- sample (backend_keywords keyword_data) 2 ;;
  seo <- select_weighted_seo (seo_keywords keyword_data) 2 ;;
  match user_keywords with
  | JList items =>
      b <- read_list backend ;;
      shuffled <- shuffle_value (items ++ map JStr b ++ map JStr seo) ;;
      all_keywords <- strings_from 0 shuffled ;;
      ret (prompt_text all_keywords)
  | _ => raise (concat_error user_keywords)
  end.

Definition SEARCH_URL : string :=
  "https://www.google.com/search?q="
  +:+ quote (RESTAURANT_NAME +:+ " " +:+ RESTAURANT_ADDRESS +:+ " write review").

Definition google_review_url (E : env) (place_id : json) : string :=
  if truthy place_id
  then "https://search.google.com/local/writereview?placeid="
       +:+ format_value E place_id
  else SEARCH_URL.

Definition generate_review (E : env) (req : request_body) : M response :=
  try_except
    (data <- get_json req ;;
     selected <- get_selected data ;;
     given <- truth_of selected ;;
     match given with
     | false =>
         ret (Response 400 (JObject [("error", JStr "No keywords provided")]))
     | true =>
         keywords <- load_keywords ;;
         prompt <- match selected with
                   | PList l => generate_prompt l keywords
                   | PJson v => generate_prompt_other v keywords
                   end ;;
         choices <- chat_completions_create E prompt ;;
         choice <- index choices 0 ;;
         review <- match choice with
                   | Some content => ret (strip content)
                   | None =>
                       raise (Exn AttributeError
                                "'NoneType' object has no attribute 'strip'")
                   end ;;
         place_id <- get_google_place_id E ;;
         ret (Response 200
                (JObject
                   [ ("review", JStr review);
                     ("prompt", JStr prompt);
                     ("restaurant_name", JStr RESTAURANT_NAME);
                     ("restaurant_address", JStr RESTAURANT_ADDRESS);
                     ("place_id", place_id);
                     ("google_review_url", JStr (google_review_url E place_id)) ]))
     end)
    (fun e =>
       ret (Response 500
              (JObject [("error",
                         JStr ("Review generation failed: " +:+ str_exn e))]))).

Definition get_restaurant_info (E : env) : M response :=
  place_id <- get_google_place_id E ;;
  ret (Response 200
         (JObject
            [ ("name", JStr RESTAURANT_NAME);
              ("address", JStr RESTAURANT_ADDRESS);
              ("place_id", place_id);
              ("google_search_url", JStr SEARCH_URL);
              ("google_review_url", JStr (google_review_url E place_id)) ])).

(** [jsonify] of the dict of [load_keywords]: the three lists are read from
    the heap. *)
Definition json_of_seo (e : seo_entry) : json :=
  JObject [("word", JStr (word e)); ("weight", JInt (weight e))].

Definition jsonify_keywords (kd : keyword_table) : M json :=
  u <- read_list (user_keywords kd) ;;
  b <- read_list (backend_keywords kd) ;;
  s <- read_seo_list (seo_keywords kd) ;;
  ret (JObject [ ("user_keywords", JList (map JStr u));
                 ("backend_keywords", JList (map JStr b));
                 ("seo_keywords", JList (map json_of_seo s)) ]).

Definition get_keywords : M response :=
  kd <- load_keywords ;;
  payload <- jsonify_keywords kd ;;
  ret (Response 200 payload).

Definition health : M response :=
  ret (Response 200
         (JObject [("status", JStr "healthy");
                   ("restaurant", JStr RESTAURANT_NAME)])).

(** The routes. *)
Inductive request :=
| PostGenerateReview (req : request_body)
| GetRestaurantInfo
| GetKeywords
| GetHealth.

Definition handle (E : env) (r : request) : M response :=
  match r with
  | PostGenerateReview req => generate_review E req
  | GetRestaurantInfo => get_restaurant_info E
  | GetKeywords => get_keywords
  | GetHealth => health
  end.

(** The process serves requests one after the other. *)
Fixpoint serve (E : env) (rs : list request) (w : world) : world :=
  match rs with
  | [] => w
  | r :: rs' => serve E rs' (handle E r w).2
  end.

(** ** Notions used in the statements *)

(** Code that leaves every list object, and the call log, as they are: it
    may only read the tape. *)
Definition tape_only {A} (m : M A) : Prop :=
  forall w r w', m w = (r, w') ->
    strs w' = strs w /\ seos w' = seos w /\ calls w' = calls w.

(** The exception of [sample] when [k] is out of range. *)
Definition sample_error : exn :=
  Exn ValueError "Sample larger than population or is negative".

(** What makes a list of weights acceptable to [choices]: there is one, and
    the total is positive and not beyond the floats. *)
Definition weights_ok (weights : list Z) : Prop :=
  exists total, last (accumulate weights) = Some total
    /\ float_overflow total = false /\ (0 < total)%Z.

(** An answer of the places service that names a place: the status is
    ["OK"] and the first candidate is an object with a [place_id]. *)
Definition names_place (data pid : json) : Prop :=
  exists d c cs,
    data = JObject d
    /\ assoc "status" d = Some (JStr "OK")
    /\ assoc "candidates" d = Some (JList (JObject c :: cs))
    /\ assoc "place_id" c = Some pid.

(** The outcomes of the places service that are a failure of the lookup:
    the service cannot be reached, its answer is not JSON, or the JSON
    names no place (no results, another status, another shape). *)
Definition lookup_fails (o : places_outcome) : Prop :=
  match o with
  | RequestRaises _ | JsonRaises _ => True
  | Parsed data => forall pid, ~ names_place data pid
  end.

(** The lookup made after the calls of [history] fails: no key is
    configured, or the outcome of the places service is a failure. *)
Definition lookup_fails_at (E : env) (history : list call) : Prop :=
  match GOOGLE_PLACES_API_KEY E with
  | None => True
  | Some key =>
      key = "" \/ lookup_fails (places_answer E (places_call key :: history))
  end.

Definition DEEP_LINK : string :=
  "https://search.google.com/local/writereview?placeid=".

(** The keyword data as JSON. *)
Definition KEYWORDS_JSON : json :=
  JObject [ ("user_keywords", JList (map JStr USER_KEYWORDS));
            ("backend_keywords", JList (map JStr BACKEND_KEYWORDS));
            ("seo_keywords", JList (map json_of_seo SEO_KEYWORDS)) ].

Definition review_body (E : env) (review prompt : string) (place_id : json)
  : json :=
  JObject
    [ ("review", JStr review);
      ("prompt", JStr prompt);
      ("restaurant_name", JStr RESTAURANT_NAME);
      ("restaurant_address", JStr RESTAURANT_ADDRESS);
      ("place_id", place_id);
      ("google_review_url", JStr (google_review_url E place_id)) ].

Definition restaurant_info_body (E : env) (place_id : json) : json :=
  JObject
    [ ("name", JStr RESTAURANT_NAME);
      ("address", JStr RESTAURANT_ADDRESS);
      ("place_id", place_id);
      ("google_search_url", JStr SEARCH_URL);
      ("google_review_url", JStr (google_review_url E place_id)) ].

(** What [data.get("selectedKeywords", [])] evaluates to on the body of a
    request: the exception raised on the way, or the value. *)
Definition selected_of (req : request_body) : exn + json :=
  match req with
  | NotJson e => inl e
  | Json (JObject d) => inr (default (JList []) (assoc "selectedKeywords" d))
  | Json data => inl (no_get_error data)
  end.

(** The keywords that a value is, when it is a list of strings. *)
Definition keywords_of (v : json) : option (list string) :=
  match v with
  | JList items => as_strings items
  | _ => None
  end.

(** The request is a JSON object whose [selectedKeywords] is the list of
    the strings [ks]. *)
Definition sends_keywords (req : request_body) (ks : list string) : Prop :=
  exists d,
    req = Json (JObject d)
    /\ assoc "selectedKeywords" d = Some (JList (map JStr ks)).


(** Inputs on which the statements are run. *)
Definition a_world : world := World [] [] [7; 3; 100; 5; 1; 4; 2; 0] [].

Definition a_request : request_body :=
  Json (JObject [("selectedKeywords", JList [JStr "tasty"; JStr "fresh"])]).

Definition env_places_down : env :=
  Env (Some "key")
    (fun _ => GroqReturns [Some " Lovely dal pakwan. "])
    (fun _ => RequestRaises (Exn CollaboratorError "connection refused"))
    (fun _ => "").

Definition env_place_found : env :=
  Env (Some "key")
    (fun _ => GroqReturns [Some " Lovely dal pakwan. "])
    (fun _ =>
       Parsed (JObject
                 [ ("candidates", JList [JObject [("place_id", JStr "ChIJ123")]]);
                   ("status", JStr "OK") ]))
    (fun _ => "").

(** What the specification calls an [InvalidInputError]: the exception by
    which the [random] module turns down an argument it cannot sample
    from, a [ValueError] or an [IndexError]. *)
Definition InvalidInputError (e : exn) : Prop :=
  exn_class_of e = ValueError \/ exn_class_of e = IndexError.
(** ** Notions used in the further properties *)

(** The sum of the weights of an SEO table. *)
Definition total_weight (ks : list seo_entry) : Z :=
  foldr (fun e acc => (weight e + acc)%Z) 0%Z ks.

(** The exception, if any, by which [select_weighted_seo] turns down a
    table. *)
Definition seo_error (ks : list seo_entry) : option exn :=
  match ks with
  | [] => Some (Exn IndexError "list index out of range")
  | _ =>
      if float_overflow (total_weight ks)
      then Some (Exn OverflowError "int too large to convert to float")
      else if (total_weight ks <=? 0)%Z
      then Some (Exn ValueError "Total of weights must be greater than zero")
      else None
  end.

(** Code that only adds to the state: new list objects after the ones
    that exist, new calls on top of the ones logged. *)
Definition grows {A} (m : M A) : Prop :=
  forall w r w', m w = (r, w') ->
    (exists extra, strs w' = strs w ++ extra)
    /\ (exists extra, seos w' = seos w ++ extra)
    /\ (exists later, calls w' = later ++ calls w).

(** The answer of [generate_review] to an exception. *)
Definition error_response (e : exn) : response :=
  Response 500
    (JObject [("error", JStr ("Review generation failed: " +:+ str_exn e))]).

Definition is_places_call (c : call) : bool :=
  match c with
  | PlacesCall _ _ _ _ _ => true
  | GroqCall _ _ _ _ _ => false
  end.

(** Code whose calls to the collaborators, if it makes any, all satisfy
    [P]. *)
Definition logs_only (P : call -> bool) {A} (m : M A) : Prop :=
  forall w r w', m w = (r, w') ->
    exists later, calls w' = later ++ calls w
                  /\ Forall (fun c => P c = true) later.

(** Code that draws nothing from the random source. *)
Definition keeps_tape {A} (m : M A) : Prop :=
  forall w r w', m w = (r, w') -> tape w' = tape w.

Definition is_review_request (r : request) : bool :=
  match r with
  | PostGenerateReview _ => true
  | _ => false
  end.

Fixpoint string_forall (P : ascii -> bool) (s : string) : bool :=
  match s with
  | EmptyString => true
  | String c s' => P c && string_forall P s'
  end.

(** The characters of a quoted string: the safe ones and the percent sign. *)
Definition quoted_char (c : ascii) : bool :=
  is_safe c || Ascii.eqb c "%".

Definition env_generation_down : env :=
  Env (Some "key")
    (fun _ => GroqRaises (Exn CollaboratorError "rate limit reached"))
    (fun _ => RequestRaises (Exn CollaboratorError "connection refused"))
    (fun _ => "").

Definition env_no_key : env :=
  Env None
    (fun _ => GroqReturns [Some " Lovely dal pakwan. "])
    (fun _ => RequestRaises (Exn CollaboratorError "connection refused"))
    (fun _ => "").

(** * The library functions on concrete inputs *)

Example quote_example :
  quote ("Dal Pakwan 24, Ambika/" +:+ String "195" (String "169" "") +:+ "~")
  = "Dal%20Pakwan%2024%2C%20Ambika/%C3%A9~".
Proof. reflexivity. Qed.

Example strip_example :
  strip (String "009" (String "194" (String "160" " ab c "))
         +:+ String "227" (String "128" (String "128" (String "010" ""))))
  = "ab c".
Proof. reflexivity. Qed.

Example bisect_example :
  map (fun x => bisect (accumulate [10; 9; 8]%Z) (inject_Z x) 0 2)
    [0; 9; 10; 18; 19; 26; 27]%Z
  = [0; 0; 1; 1; 2; 2; 2].
Proof. reflexivity. Qed.

Example sample_example :
  let w := World [["a"; "b"; "c"; "d"]] [] [6; 5] [] in
  sample 0 2 w
  = (Ok 2, World [["a"; "b"; "c"; "d"]; ["a"; "b"; "d"; "d"]; ["c"; "d"]]
             [] [] []).
Proof. reflexivity. Qed.

Example shuffle_example :
  shuffle 0 (World [["a"; "b"; "c"]] [] [1; 1] [])
  = (Ok tt, World [["a"; "c"; "b"]] [] [] []).
Proof. reflexivity. Qed.

Example generate_prompt_example :
  ((kd <- load_keywords ;; generate_prompt 0 kd)
     (World [["tasty"; "fresh"]] [] [7; 3; 100; 5; 1; 4; 2; 0] [])).1
  = Ok (prompt_text ["dal pakwan"; "worth trying"; "tasty"; "best in surat";
                     "dal pakwan"; "fresh"]).
Proof. reflexivity. Qed.

(** [generate_review] on bodies that are not what the page sends: [null],
    keywords with a number among them, keywords that are one string. *)
Example generate_review_null_body_example :
  (generate_review env_place_found (Json JNull) a_world).1
  = Ok (Response 500
          (JObject
             [("error",
               JStr "Review generation failed: 'NoneType' object has no attribute 'get'")])).
Proof. reflexivity. Qed.

Example generate_review_number_keyword_example :
  (generate_review env_place_found
     (Json (JObject [("selectedKeywords", JList [JStr "tasty"; JInt 5])]))
     a_world).1
  = Ok (Response 500
          (JObject
             [("error",
               JStr "Review generation failed: sequence item 5: expected str instance, int found")])).
Proof. reflexivity. Qed.

Example generate_review_string_keywords_example :
  (generate_review env_place_found
     (Json (JObject [("selectedKeywords", JStr "tasty")])) a_world).1
  = Ok (Response 500
          (JObject
             [("error",
               JStr ("Review generation failed: can only concatenate str (not "
                     +:+ DQUOTE +:+ "list" +:+ DQUOTE +:+ ") to str"))])).
Proof. reflexivity. Qed.

(** * Reasoning about the monad *)

Lemma bind_ok {A B} (m : M A) (f : A -> M B) w a w' :
  m w = (Ok a, w') -> bind m f w = f a w'.
Proof. intros H. unfold bind. by rewrite H. Qed.

Lemma bind_raise {A B} (m : M A) (f : A -> M B) w e w' :
  m w = (Raise e, w') -> bind m f w = (Raise e, w').
Proof. intros H. unfold bind. by rewrite H. Qed.

Lemma bind_diverge {A B} (m : M A) (f : A -> M B) w w' :
  m w = (Diverge, w') -> bind m f w = (Diverge, w').
Proof. intros H. unfold bind. by rewrite H. Qed.


Lemma tape_only_ret {A} (a : A) : tape_only (ret a).
Proof. intros w r w' [= <- <-]. done. Qed.

Lemma tape_only_raise {A} e : tape_only (@raise A e).
Proof. intros w r w' [= <- <-]. done. Qed.

Lemma tape_only_bind {A B} (m : M A) (f : A -> M B) :
  tape_only m -> (forall a, tape_only (f a)) -> tape_only (bind m f).
Proof.
  intros Hm Hf w r w'. unfold bind.
  destruct (m w) as [[a|e|] w1] eqn:E; intros H.
  - destruct (Hm _ _ _ E) as (H1 & H2 & H3).
    destruct (Hf _ _ _ _ H) as (H4 & H5 & H6).
    repeat split; congruence.
  - injection H as <- <-. by eapply Hm.
  - injection H as <- <-. by eapply Hm.
Qed.

Lemma tape_only_next_raw : tape_only next_raw.
Proof.
  intros w r w'. unfold next_raw.
  destruct (tape w); intros [= <- <-]; done.
Qed.

Lemma tape_only_randbelow n : tape_only (randbelow n).
Proof.
  unfold randbelow. case_decide; [by intros w r w' [= <- <-]|].
  apply tape_only_bind; [apply tape_only_next_raw | intros; apply tape_only_ret].
Qed.

Lemma tape_only_random : tape_only random.
Proof.
  apply tape_only_bind; [apply tape_only_next_raw | intros; apply tape_only_ret].
Qed.

Lemma tape_only_index {A} (xs : list A) i : tape_only (index xs i).
Proof.
  unfold index. destruct (xs !! i);
    [apply tape_only_ret | apply tape_only_raise].
Qed.

Lemma tape_only_repeatM {A} k (m : M A) : tape_only m -> tape_only (repeatM k m).
Proof.
  intros Hm. induction k as [|k IH]; simpl.
  - apply tape_only_ret.
  - apply tape_only_bind; [done | intros a].
    apply tape_only_bind; [done | intros; apply tape_only_ret].
Qed.

Lemma tape_only_read_seo_list l : tape_only (read_seo_list l).
Proof. intros w r w' [= <- <-]. done. Qed.

(** [_randbelow(n)] answers, and below [n]. *)
Lemma randbelow_spec n w :
  0 < n -> exists j t, randbelow n w = (Ok j, set_tape t w) /\ j < n.
Proof.
  intros Hn. unfold randbelow. rewrite decide_False by lia.
  unfold bind, next_raw, ret.
  destruct w as [h s t c]; simpl.
  destruct t as [|r t]; simpl; (eexists _, _; split; [reflexivity|]);
    apply Nat.mod_upper_bound; lia.
Qed.

Lemma getitem_ok l i w v :
  items l w !! i = Some v -> getitem l i w = (Ok v, w).
Proof. intros H. unfold getitem. by rewrite H. Qed.

Lemma setitem_ok l i v w :
  i < length (items l w) ->
  setitem l i v w
  = (Ok tt, set_strs (<[l := <[i := v]> (items l w)]> (strs w)) w).
Proof. intros H. unfold setitem. by rewrite decide_True. Qed.

Lemma items_lookup l w xs : strs w !! l = Some xs -> items l w = xs.
Proof. intros H. unfold items. by rewrite H. Qed.

(** * The [random] module: what its functions do *)

(** ** [shuffle] permutes the object in place and touches nothing else. *)
Lemma shuffle_loop_spec x : forall i w xs,
  strs w !! x = Some xs -> i < length xs \/ i = 0 ->
  exists xs' w',
    shuffle_loop x i w = (Ok tt, w')
    /\ strs w' = <[x := xs']> (strs w) /\ xs' ≡ₚ xs
    /\ seos w' = seos w /\ calls w' = calls w.
Proof.
  induction i as [|i IH]; intros w xs Hx Hi.
  - exists xs, w. cbn [shuffle_loop]. by rewrite list_insert_id.
  - destruct Hi as [Hi|]; [|done].
    cbn [shuffle_loop].
    destruct (randbelow_spec (S i + 1) w ltac:(lia)) as (j & t & Hj & Hlt).
    rewrite (bind_ok _ _ _ _ _ Hj).
    assert (Hjl : j < length xs) by lia.
    destruct (lookup_lt_is_Some_2 xs j Hjl) as [xj Hxj].
    destruct (lookup_lt_is_Some_2 xs (S i) Hi) as [xi Hxi].
    set (w1 := set_tape t w).
    assert (Hit : items x w1 = xs) by (by apply items_lookup).
    rewrite (bind_ok _ _ _ _ _ (getitem_ok x j w1 xj ltac:(by rewrite Hit))).
    rewrite (bind_ok _ _ _ _ _ (getitem_ok x (S i) w1 xi ltac:(by rewrite Hit))).
    rewrite (bind_ok _ _ _ _ _ (setitem_ok x (S i) xj w1 ltac:(by rewrite Hit))).
    rewrite Hit.
    set (w2 := set_strs _ w1).
    assert (Hxl : x < length (strs w)) by (by eapply lookup_lt_Some).
    assert (Hit2 : items x w2 = <[S i := xj]> xs).
    { apply items_lookup. subst w2 w1. cbn. by apply list_lookup_insert_eq. }
    rewrite (bind_ok _ _ _ _ _ (setitem_ok x j xi w2
               ltac:(by rewrite Hit2, length_insert))).
    rewrite Hit2.
    set (w3 := set_strs _ w2).
    set (xs3 := <[j := xi]> (<[S i := xj]> xs)).
    assert (H3 : strs w3 = <[x := xs3]> (strs w)).
    { subst w3 w2 w1. cbn. by rewrite list_insert_insert_eq. }
    assert (Hp3 : xs3 ≡ₚ xs) by (by apply Permutation_insert_swap).
    destruct (IH w3 xs3) as (xs' & w' & Hrun & Hs & Hp & Hseo & Hc).
    { rewrite H3. by apply list_lookup_insert_eq. }
    { left. subst xs3. rewrite !length_insert. lia. }
    exists xs', w'. split; [done|]. repeat split.
    + by rewrite Hs, H3, list_insert_insert_eq.
    + by rewrite Hp.
    + by rewrite Hseo.
    + by rewrite Hc.
Qed.

Lemma shuffle_spec x w xs :
  strs w !! x = Some xs ->
  exists xs' w',
    shuffle x w = (Ok tt, w')
    /\ strs w' = <[x := xs']> (strs w) /\ xs' ≡ₚ xs
    /\ seos w' = seos w /\ calls w' = calls w.
Proof.
  intros Hx. unfold shuffle.
  rewrite (bind_ok (read_list x) _ w (items x w) w eq_refl).
  rewrite (items_lookup _ _ _ Hx).
  apply shuffle_loop_spec; [done|]. destruct xs; simpl; [by right | left; lia].
Qed.

(** ** [sample], on the pool: the items taken, together with what is left
    in the live part of the pool, are the live part it started from. *)
Lemma take_pool_step (xs : list string) m j x y :
  j < S m -> S m <= length xs ->
  xs !! j = Some x -> xs !! m = Some y ->
  x :: take m (<[j := y]> xs) ≡ₚ take (S m) xs.
Proof.
  intros Hj Hm Hx Hy. rewrite (take_S_r _ _ _ Hy).
  destruct (decide (j = m)) as [->|Hne].
  - rewrite take_insert_ge by lia. simplify_eq.
    apply Permutation_cons_append.
  - rewrite take_insert_lt by lia.
    assert (Hx' : take m xs !! j = Some x) by (rewrite lookup_take_lt; [done|lia]).
    apply list_elem_of_split_length in Hx' as (l1 & l2 & Heq & Hlen).
    rewrite Heq. rewrite Hlen at 1.
    rewrite insert_app_r_alt, Nat.sub_diag by lia. simpl.
    rewrite <- Permutation_cons_append, <- !Permutation_middle.
    apply perm_swap.
Qed.

Lemma sample_pool_spec pool n : forall todo i w xs,
  strs w !! pool = Some xs -> n - i <= length xs -> todo <= n - i ->
  exists res xs' w',
    sample_pool pool n i todo w = (Ok res, w')
    /\ strs w' = <[pool := xs']> (strs w) /\ length xs' = length xs
    /\ res ++ take (n - i - todo) xs' ≡ₚ take (n - i) xs
    /\ seos w' = seos w /\ calls w' = calls w.
Proof.
  induction todo as [|todo IH]; intros i w xs Hx Hn Ht.
  - exists [], xs, w. cbn [sample_pool]. rewrite list_insert_id by done.
    rewrite Nat.sub_0_r. done.
  - cbn [sample_pool].
    destruct (randbelow_spec (n - i) w ltac:(lia)) as (j & t & Hj & Hjl).
    rewrite (bind_ok _ _ _ _ _ Hj).
    destruct (lookup_lt_is_Some_2 xs j ltac:(lia)) as [x Hxj].
    destruct (lookup_lt_is_Some_2 xs (n - i - 1) ltac:(lia)) as [y Hy].
    set (w1 := set_tape t w).
    assert (Hit : items pool w1 = xs) by (by apply items_lookup).
    rewrite (bind_ok _ _ _ _ _ (getitem_ok pool j w1 x ltac:(by rewrite Hit))).
    rewrite (bind_ok _ _ _ _ _
               (getitem_ok pool (n - i - 1) w1 y ltac:(by rewrite Hit))).
    rewrite (bind_ok _ _ _ _ _
               (setitem_ok pool j y w1 ltac:(rewrite Hit; lia))).
    rewrite Hit. set (w2 := set_strs _ w1). set (xs2 := <[j := y]> xs).
    assert (Hpl : pool < length (strs w)) by (by eapply lookup_lt_Some).
    assert (H2 : strs w2 = <[pool := xs2]> (strs w)) by done.
    destruct (IH (S i) w2 xs2) as (res & xs' & w' & Hrun & Hs & Hl & Hp & Hseo & Hc).
    { rewrite H2. by apply list_lookup_insert_eq. }
    { subst xs2. rewrite length_insert. lia. }
    { lia. }
    rewrite (bind_ok _ _ _ _ _ Hrun).
    exists (x :: res), xs', w'. split; [done|]. repeat split.
    + by rewrite Hs, H2, list_insert_insert_eq.
    + rewrite Hl. subst xs2. by rewrite length_insert.
    + replace (n - i - S todo) with (n - S i - todo) by lia.
      simpl. rewrite Hp. replace (n - i) with (S (n - S i)) by lia.
      apply take_pool_step; try lia; [done|].
      by replace (n - S i) with (n - i - 1) by lia.
    + by rewrite Hseo.
    + by rewrite Hc.
Qed.

(** ** [sample], drawing positions until one is new *)

Lemma draw_new_spec n sel : forall t,
  match draw_new n sel t with
  | (Ok j, _) => (j ∉ sel) /\ (0 < n -> j < n)
  | (Raise _, _) => False
  | (Diverge, _) => True
  end.
Proof.
  induction t as [|r t IH]; cbn [draw_new].
  - case_decide; [done|]. split; [done | lia].
  - case_decide as Hj; [done|]. split; [done|].
    intros. apply Nat.mod_upper_bound; lia.
Qed.

Lemma randbelow_new_spec n sel w :
  exists r w',
    randbelow_new n sel w = (r, w')
    /\ strs w' = strs w /\ seos w' = seos w /\ calls w' = calls w
    /\ match r with
       | Ok j => (j ∉ sel) /\ (0 < n -> j < n)
       | Raise _ => False
       | Diverge => True
       end.
Proof.
  unfold randbelow_new. case_decide; [by exists Diverge, w|].
  pose proof (draw_new_spec n sel (tape w)) as Hdraw.
  destruct (draw_new n sel (tape w)) as [r t]. by exists r, (set_tape t w).
Qed.

Lemma sample_set_spec p n : forall todo sel w,
  n = length (items p w) -> 0 < n ->
  exists r w',
    sample_set p n sel todo w = (r, w')
    /\ strs w' = strs w /\ seos w' = seos w /\ calls w' = calls w
    /\ match r with
       | Ok res =>
           exists js, length js = todo /\ NoDup js
             /\ (forall j, j ∈ js -> j ∉ sel)
             /\ Forall2 (fun j x => items p w !! j = Some x) js res
       | Raise _ => False
       | Diverge => True
       end.
Proof.
  induction todo as [|todo IH]; intros sel w Hn Hpos; cbn [sample_set].
  - exists (Ok []), w. repeat split; try done.
    exists []. repeat split; try done; [apply NoDup_nil_2|].
    intros j Hj. by apply elem_of_nil in Hj.
  - destruct (randbelow_new_spec n sel w) as (r & w1 & Hr & Hs & Hseo & Hc & Hj).
    destruct r as [j|e|]; [|done|].
    2:{ exists Diverge, w1. by rewrite (bind_diverge _ _ _ _ Hr). }
    destruct Hj as [Hnew Hlt]. specialize (Hlt Hpos).
    rewrite (bind_ok _ _ _ _ _ Hr).
    assert (Hit : items p w1 = items p w) by (unfold items; by rewrite Hs).
    destruct (lookup_lt_is_Some_2 (items p w) j ltac:(lia)) as [x Hx].
    rewrite (bind_ok _ _ _ _ _ (getitem_ok p j w1 x ltac:(by rewrite Hit))).
    destruct (IH (j :: sel) w1) as (r & w' & Hrun & Hs' & Hseo' & Hc' & Hres);
      [by rewrite Hit | done |].
    destruct r as [res|e|]; [|done|].
    2:{ exists Diverge, w'. rewrite (bind_diverge _ _ _ _ Hrun).
        repeat split; congruence. }
    rewrite (bind_ok _ _ _ _ _ Hrun).
    destruct Hres as (js & Hlen & Hnd & Hsel & Hall).
    exists (Ok (x :: res)), w'. split; [done|].
    repeat split; try congruence.
    exists (j :: js). repeat split.
    + simpl. by rewrite Hlen.
    + constructor; [|done]. intros Hin. apply (Hsel _ Hin). by left.
    + intros j' [->|Hin]%elem_of_cons; [done|].
      intros Hin'. apply (Hsel _ Hin). by right.
    + constructor; [done|]. by rewrite <- Hit.
Qed.

(** Items read at distinct positions of a list without repeats are
    distinct. *)
Lemma NoDup_picked (pop : list string) js res :
  NoDup pop -> NoDup js ->
  Forall2 (fun j x => pop !! j = Some x) js res ->
  NoDup res.
Proof.
  intros Hpop Hjs Hall. induction Hall as [|j x js res Hx Hall IH].
  - constructor.
  - apply NoDup_cons in Hjs as [Hj Hjs]. constructor; [|by apply IH].
    intros Hin. apply Hj.
    apply list_elem_of_lookup in Hin as [i Hi].
    destruct (Forall2_lookup_r _ _ _ _ _ Hall Hi) as (j' & Hj' & Hp).
    simpl in Hp, Hx.
    assert (j = j') as -> by (by eapply (NoDup_lookup pop)).
    by eapply list_elem_of_lookup_2.
Qed.

Lemma picked_elem_of (pop : list string) js res :
  Forall2 (fun j x => pop !! j = Some x) js res ->
  forall x, x ∈ res -> x ∈ pop.
Proof.
  intros Hall x [i Hi]%list_elem_of_lookup.
  destruct (Forall2_lookup_r _ _ _ _ _ Hall Hi) as (j & _ & Hp).
  simpl in Hp. by eapply list_elem_of_lookup_2.
Qed.

(** ** [sample]: the three ways it can end.  Whatever happens, list objects
    that exist when it is called keep their items. *)

Lemma sample_spec p k w :
  let pop := items p w in
  exists r w',
    sample p k w = (r, w')
    /\ (exists extra, strs w' = strs w ++ extra)
    /\ seos w' = seos w /\ calls w' = calls w
    /\ match r with
       | Ok l =>
           k <= length pop
           /\ exists res, strs w' !! l = Some res /\ length res = k
                /\ (forall x, x ∈ res -> x ∈ pop)
                /\ (NoDup pop -> NoDup res)
       | Raise e => length pop < k /\ e = sample_error /\ strs w' = strs w
       | Diverge => k <= length pop /\ setsize k < length pop
       end.
Proof.
  intros pop. unfold sample.
  rewrite (bind_ok (read_list p) _ w pop w eq_refl).
  case_decide as Hk.
  2:{ exists (Raise sample_error), w. split; [done|]. repeat split; try done.
      - exists []. by rewrite app_nil_r.
      - lia. }
  case_decide as Hn.
  - (* the pool *)
    set (w1 := set_strs (strs w ++ [pop]) w).
    rewrite (bind_ok (new_list pop) _ w (length (strs w)) w1 eq_refl).
    destruct (sample_pool_spec (length (strs w)) (length pop) k 0 w1 pop)
      as (res & xs' & w2 & Hrun & Hs & Hl & Hp & Hseo & Hc).
    { subst w1; cbn. by apply list_lookup_middle. }
    { lia. }
    { lia. }
    rewrite (bind_ok _ _ _ _ _ Hrun).
    assert (H2 : strs w2 = strs w ++ [xs']).
    { rewrite Hs. subst w1; cbn.
      by rewrite (insert_app_r_alt _ _ (length (strs w))), Nat.sub_diag by lia. }
    eexists (Ok (length (strs w2))), _. split; [reflexivity|].
    cbn. rewrite H2. repeat split; try done.
    + exists [xs'; res]. by rewrite <- app_assoc.
    + exists res. rewrite Nat.sub_0_r in Hp.
      assert (Hp' : res ++ take (length pop - k) xs' ≡ₚ pop).
      { rewrite Hp. by rewrite firstn_all. }
      repeat split.
      * by apply list_lookup_middle.
      * apply Permutation_length in Hp'. rewrite length_app, length_take in Hp'.
        lia.
      * intros x Hx. rewrite <- Hp'. apply elem_of_app. by left.
      * intros Hnd. rewrite <- Hp' in Hnd. by apply NoDup_app in Hnd as [? _].
  - (* the set of positions *)
    destruct (decide (k = 0)) as [->|Hk0].
    { cbn [sample_set]. rewrite (bind_ok (ret []) _ w [] w eq_refl).
      eexists (Ok (length (strs w))), _. split; [reflexivity|]. cbn.
      repeat split; try done; try lia.
      - by exists [[]].
      - exists []. repeat split; try done.
        + by apply list_lookup_middle.
        + by intros x ?%elem_of_nil.
        + intros; apply NoDup_nil_2. }
    destruct (sample_set_spec p (length pop) k [] w eq_refl ltac:(lia))
      as (r & w1 & Hrun & Hs & Hseo & Hc & Hres).
    destruct r as [res|e|]; [|done|].
    2:{ exists Diverge, w1. rewrite (bind_diverge _ _ _ _ Hrun).
        repeat split; try done; [|lia]. exists []. by rewrite app_nil_r. }
    rewrite (bind_ok _ _ _ _ _ Hrun).
    destruct Hres as (js & Hlen & Hnd & _ & Hall).
    eexists (Ok (length (strs w1))), _. split; [reflexivity|]. cbn.
    rewrite Hs. repeat split; try done.
    + by exists [res].
    + exists res. repeat split.
      * by apply list_lookup_middle.
      * apply Forall2_length in Hall. lia.
      * by eapply picked_elem_of.
      * intros Hpop. by eapply NoDup_picked.
Qed.

(** ** [bisect]: the position stays between [lo] and [hi], and the loop has
    fuel enough to end by itself. *)
Lemma bisect_loop_bounds a x : forall fuel lo hi,
  lo <= hi -> lo <= bisect_loop fuel a x lo hi <= hi.
Proof.
  induction fuel as [|fuel IH]; intros lo hi Hle; cbn [bisect_loop]; [lia|].
  case_decide as Hlt; [|lia].
  assert (lo <= (lo + hi) / 2 < hi).
  { split; [apply Nat.div_le_lower_bound | apply Nat.Div0.div_lt_upper_bound]; lia. }
  destruct (Qle_bool _ x);
    [specialize (IH ((lo + hi) / 2 + 1) hi) | specialize (IH lo ((lo + hi) / 2))];
    lia.
Qed.

Lemma bisect_loop_fuel a x : forall fuel fuel' lo hi,
  hi - lo <= fuel -> hi - lo <= fuel' ->
  bisect_loop fuel a x lo hi = bisect_loop fuel' a x lo hi.
Proof.
  induction fuel as [|fuel IH]; intros fuel' lo hi H1 H2.
  - destruct fuel'; cbn [bisect_loop]; [done|]. by rewrite decide_False by lia.
  - destruct fuel' as [|fuel']; cbn [bisect_loop].
    { by rewrite decide_False by lia. }
    case_decide as Hlt; [|done].
    assert (lo <= (lo + hi) / 2 < hi).
    { split; [apply Nat.div_le_lower_bound | apply Nat.Div0.div_lt_upper_bound]; lia. }
    destruct (Qle_bool _ x); apply IH; lia.
Qed.

Lemma bisect_bounds a x lo hi : lo <= hi -> lo <= bisect a x lo hi <= hi.
Proof. apply bisect_loop_bounds. Qed.

(** ** [choices] *)

Lemma length_accumulate_from xs : forall acc,
  length (accumulate_from acc xs) = length xs.
Proof. induction xs as [|x xs IH]; intros acc; simpl; [done | by rewrite IH]. Qed.

Lemma random_spec w : exists q t, random w = (Ok q, set_tape t w).
Proof.
  unfold random, bind, next_raw, ret. destruct w as [h s t c]; simpl.
  destruct t; simpl; eauto.
Qed.

Lemma tape_only_choices population weights k :
  tape_only (choices population weights k).
Proof.
  unfold choices. case_decide; [|apply tape_only_raise].
  destruct (last _); [|apply tape_only_raise].
  destruct (float_overflow _); [apply tape_only_raise|].
  destruct (_ <=? _)%Z; [apply tape_only_raise|].
  apply tape_only_repeatM, tape_only_bind; [apply tape_only_random|].
  intros q. apply tape_only_index.
Qed.

Lemma repeatM_draws (population : list string) cum total n : forall k w,
  0 < n -> n = length population ->
  exists res w',
    repeatM k
      (u <- random ;;
       index population (bisect cum (u * inject_Z total) 0 (n - 1))) w
    = (Ok res, w')
    /\ length res = k /\ (forall x, x ∈ res -> x ∈ population).
Proof.
  intros k w Hn Hlen. revert w.
  induction k as [|k IH]; intros w; cbn [repeatM].
  - exists [], w. repeat split. by intros x ?%elem_of_nil.
  - destruct (random_spec w) as (q & t & Hq).
    pose proof (bisect_bounds cum (q * inject_Z total) 0 (n - 1) ltac:(lia)) as Hb.
    destruct (lookup_lt_is_Some_2 population
                (bisect cum (q * inject_Z total) 0 (n - 1)) ltac:(lia)) as [x Hx].
    assert (Hone : (u <- random ;;
                    index population (bisect cum (u * inject_Z total) 0 (n - 1))) w
                   = (Ok x, set_tape t w)).
    { rewrite (bind_ok _ _ _ _ _ Hq). unfold index. by rewrite Hx. }
    rewrite (bind_ok _ _ _ _ _ Hone).
    destruct (IH (set_tape t w)) as (res & w' & Hrun & Hl & Hin).
    rewrite (bind_ok _ _ _ _ _ Hrun).
    exists (x :: res), w'. repeat split; [by simpl; rewrite Hl|].
    intros y [->|Hy]%elem_of_cons; [by eapply list_elem_of_lookup_2 | by apply Hin].
Qed.

(** ** [select_weighted_seo] *)

Lemma tape_only_select_weighted_seo l count :
  tape_only (select_weighted_seo l count).
Proof.
  apply tape_only_bind; [apply tape_only_read_seo_list|].
  intros ks. apply tape_only_choices.
Qed.

(** * Strings: [in] and [join] *)

Lemma append_assoc (a b c : string) : (a +:+ b) +:+ c = a +:+ (b +:+ c).
Proof.
  induction a as [|ch a IH]; [done|].
  change (String ch ((a +:+ b) +:+ c) = String ch (a +:+ (b +:+ c))).
  by rewrite IH.
Qed.

Lemma append_nil_r (a : string) : a +:+ "" = a.
Proof.
  induction a as [|ch a IH]; [done|].
  change (String ch (a +:+ "") = String ch a). by rewrite IH.
Qed.

Lemma contains_refl s : contains s s.
Proof. exists "", "". by rewrite append_nil_r. Qed.

Lemma contains_app_l a b x : contains a x -> contains (a +:+ b) x.
Proof.
  intros (pre & post & ->). exists pre, (post +:+ b).
  by rewrite !append_assoc.
Qed.

Lemma contains_app_r a b x : contains b x -> contains (a +:+ b) x.
Proof.
  intros (pre & post & ->). exists (a +:+ pre), post.
  by rewrite !append_assoc.
Qed.

Lemma contains_join sep (xs : list string) x :
  x ∈ xs -> contains (join sep xs) x.
Proof.
  unfold join. induction xs as [|y xs IH]; [by intros ?%elem_of_nil|].
  intros Hin. cbn [String.concat]. destruct xs as [|z xs].
  - apply list_elem_of_singleton in Hin as ->. apply contains_refl.
  - apply elem_of_cons in Hin as [->|Hin].
    + apply contains_app_l, contains_refl.
    + by apply contains_app_r, contains_app_r, IH.
Qed.

Lemma contains_prompt_text all x : x ∈ all -> contains (prompt_text all) x.
Proof.
  intros Hin. unfold prompt_text.
  do 6 apply contains_app_r. by apply contains_app_l, contains_join.
Qed.

(** * The prompt composer *)

Lemma choices_cases (population : list string) weights k w :
  length weights = length population ->
  exists r w',
    choices population weights k w = (r, w')
    /\ match r with
       | Ok res => length res = k /\ (forall x, x ∈ res -> x ∈ population)
       | Raise _ => ~ weights_ok weights
       | Diverge => False
       end.
Proof.
  intros Hlen. unfold choices, weights_ok.
  rewrite decide_True by (unfold accumulate; by rewrite length_accumulate_from).
  destruct (last (accumulate weights)) as [total|] eqn:Hlast.
  2:{ eexists (Raise _), w. split; [reflexivity|]. by intros (? & ? & _). }
  destruct (float_overflow total) eqn:Hov.
  { eexists (Raise _), w. split; [reflexivity|].
    intros (? & [= <-] & ? & _). congruence. }
  destruct (Z.leb_spec total 0) as [Hle|Hpos].
  { eexists (Raise _), w. split; [reflexivity|].
    intros (? & [= <-] & _ & ?). lia. }
  destruct (repeatM_draws population (accumulate weights) total
              (length population) k w) as (res & w' & Hrun & Hres); [|done|].
  { destruct population; [|simpl; lia]. by destruct weights. }
  exists (Ok res), w'. by split.
Qed.

Lemma select_weighted_seo_cases l count w :
  let ks := default [] (seos w !! l) in
  exists r w',
    select_weighted_seo l count w = (r, w')
    /\ strs w' = strs w /\ seos w' = seos w /\ calls w' = calls w
    /\ match r with
       | Ok res => length res = count /\ (forall x, x ∈ res -> x ∈ map word ks)
       | Raise _ => ~ weights_ok (map weight ks)
       | Diverge => False
       end.
Proof.
  intros ks.
  destruct (choices_cases (map word ks) (map weight ks) count w)
    as (r & w' & Hrun & Hres); [by rewrite !length_map|].
  assert (Hsel : select_weighted_seo l count w = (r, w')).
  { unfold select_weighted_seo.
    by rewrite (bind_ok (read_seo_list l) _ w ks w eq_refl). }
  exists r, w'. split; [done|].
  destruct (tape_only_select_weighted_seo l count _ _ _ Hsel) as (? & ? & ?).
  done.
Qed.

(** Everything [generate_prompt] can do.  List objects that exist when it is
    called keep their items, and so do the SEO tables and the call log; when
    it returns, the prompt is [prompt_text] of a permutation of the caller's
    keywords, two backend phrases and two SEO words. *)
Lemma generate_prompt_spec u kd w :
  let bk := items (backend_keywords kd) w in
  let sk := default [] (seos w !! seo_keywords kd) in
  exists r w',
    generate_prompt u kd w = (r, w')
    /\ (exists extra, strs w' = strs w ++ extra)
    /\ seos w' = seos w /\ calls w' = calls w
    /\ match r with
       | Ok p =>
           exists all b s,
             p = prompt_text all
             /\ length b = 2 /\ (forall x, x ∈ b -> x ∈ bk)
             /\ (NoDup bk -> NoDup b)
             /\ length s = 2 /\ (forall x, x ∈ s -> x ∈ map word sk)
             /\ (u < length (strs w) -> all ≡ₚ items u w ++ b ++ s)
       | Raise e =>
           (length bk < 2 /\ e = sample_error /\ strs w' = strs w)
           \/ (2 <= length bk /\ ~ weights_ok (map weight sk))
       | Diverge => 21 < length bk
       end.
Proof.
  intros bk sk. unfold generate_prompt.
  destruct (sample_spec (backend_keywords kd) 2 w)
    as (r1 & w1 & Hrun1 & [e1 Hs1] & Hseo1 & Hc1 & Hr1).
  destruct r1 as [backend|e|].
  2:{ exists (Raise e), w1. rewrite (bind_raise _ _ _ _ _ Hrun1).
      repeat split; try done; [by exists e1 | by left]. }
  2:{ exists Diverge, w1. rewrite (bind_diverge _ _ _ _ Hrun1).
      repeat split; try done; [by exists e1 | by destruct Hr1]. }
  rewrite (bind_ok _ _ _ _ _ Hrun1).
  destruct Hr1 as (Hk & b & Hb & Hlb & Hbin & Hbnd).
  destruct (select_weighted_seo_cases (seo_keywords kd) 2 w1)
    as (r2 & w2 & Hrun2 & Hs2 & Hseo2 & Hc2 & Hr2).
  rewrite Hseo1 in Hr2. fold sk in Hr2.
  destruct r2 as [s|e|]; [| |done].
  2:{ exists (Raise e), w2. rewrite (bind_raise _ _ _ _ _ Hrun2).
      repeat split; try congruence; [exists e1; congruence | by right]. }
  rewrite (bind_ok _ _ _ _ _ Hrun2).
  destruct Hr2 as [Hls Hsin].
  rewrite (bind_ok (read_list u) _ w2 (items u w2) w2 eq_refl).
  rewrite (bind_ok (read_list backend) _ w2 (items backend w2) w2 eq_refl).
  assert (Hib : items backend w2 = b) by (apply items_lookup; by rewrite Hs2).
  rewrite Hib.
  set (all0 := items u w2 ++ b ++ s).
  set (w3 := set_strs (strs w2 ++ [all0]) w2).
  rewrite (bind_ok (new_list all0) _ w2 (length (strs w2)) w3 eq_refl).
  destruct (shuffle_spec (length (strs w2)) w3 all0)
    as (all & w4 & Hrun4 & Hs4 & Hp4 & Hseo4 & Hc4).
  { subst w3; cbn. by apply list_lookup_middle. }
  rewrite (bind_ok _ _ _ _ _ Hrun4).
  assert (H4 : strs w4 = strs w2 ++ [all]).
  { rewrite Hs4. subst w3; cbn.
    by rewrite (insert_app_r_alt _ _ (length (strs w2))), Nat.sub_diag by lia. }
  rewrite (bind_ok (read_list (length (strs w2))) _ w4 all w4).
  2:{ unfold read_list, items. by rewrite H4, list_lookup_middle. }
  exists (Ok (prompt_text all)), w4. split; [done|].
  repeat split.
  - exists (e1 ++ [all]). by rewrite H4, Hs2, Hs1, app_assoc.
  - rewrite Hseo4. cbn. congruence.
  - rewrite Hc4. cbn. congruence.
  - exists all, b, s. repeat split; try done.
    intros Hu. rewrite Hp4. subst all0.
    replace (items u w2) with (items u w); [done|].
    unfold items. by rewrite Hs2, Hs1, lookup_app_l.
Qed.

(** ** The fixed table *)

Lemma load_keywords_spec w :
  exists kd w1,
    load_keywords w = (Ok kd, w1)
    /\ strs w1 = strs w ++ [USER_KEYWORDS; BACKEND_KEYWORDS]
    /\ seos w1 = seos w ++ [SEO_KEYWORDS]
    /\ calls w1 = calls w /\ tape w1 = tape w
    /\ user_keywords kd = length (strs w)
    /\ backend_keywords kd = S (length (strs w))
    /\ seo_keywords kd = length (seos w).
Proof.
  eexists _, _. split; [reflexivity|]. cbn.
  rewrite <- app_assoc, length_app. cbn. repeat split; lia.
Qed.

Lemma SEO_KEYWORDS_weights_ok : weights_ok (map weight SEO_KEYWORDS).
Proof. exists 73%Z. by vm_compute. Qed.

Lemma NoDup_BACKEND_KEYWORDS : NoDup BACKEND_KEYWORDS.
Proof. apply (bool_decide_unpack _). by vm_compute. Qed.

(** With the fixed table the composer always returns. *)
Lemma generate_prompt_fixed_table u w :
  exists kd w1 p w',
    load_keywords w = (Ok kd, w1)
    /\ generate_prompt u kd w1 = (Ok p, w')
    /\ (kd <- load_keywords ;; generate_prompt u kd) w = (Ok p, w')
    /\ (exists extra, strs w' = strs w ++ extra)
    /\ seos w' = seos w ++ [SEO_KEYWORDS] /\ calls w' = calls w
    /\ exists all b s,
         p = prompt_text all
         /\ length b = 2 /\ (forall x, x ∈ b -> x ∈ BACKEND_KEYWORDS) /\ NoDup b
         /\ length s = 2 /\ (forall x, x ∈ s -> x ∈ map word SEO_KEYWORDS)
         /\ (u < length (strs w) -> all ≡ₚ items u w ++ b ++ s).
Proof.
  destruct (load_keywords_spec w)
    as (kd & w1 & Hload & Hs1 & Hseo1 & Hc1 & _ & _ & Hb & Hseo).
  destruct (generate_prompt_spec u kd w1)
    as (r & w' & Hrun & [extra Hs] & Hseo' & Hc & Hr).
  assert (Hbk : items (backend_keywords kd) w1 = BACKEND_KEYWORDS).
  { apply items_lookup. rewrite Hs1, Hb.
    by rewrite (lookup_app_r _ _ (S (length (strs w)))), Nat.sub_succ_l,
      Nat.sub_diag by lia. }
  assert (Hsk : default [] (seos w1 !! seo_keywords kd) = SEO_KEYWORDS).
  { by rewrite Hseo1, Hseo, list_lookup_middle. }
  rewrite Hbk, Hsk in Hr.
  destruct r as [p|e|].
  - exists kd, w1, p, w'. split; [done|]. split; [done|].
    split; [by rewrite (bind_ok _ _ _ _ _ Hload)|].
    split; [exists ([USER_KEYWORDS; BACKEND_KEYWORDS] ++ extra);
            by rewrite Hs, Hs1, app_assoc|].
    split; [congruence|]. split; [congruence|].
    destruct Hr as (all & b & s & -> & Hlb & Hbin & Hbnd & Hls & Hsin & Hperm).
    exists all, b, s. repeat split; try done.
    + apply Hbnd, NoDup_BACKEND_KEYWORDS.
    + intros Hu. rewrite Hperm by (rewrite Hs1, length_app; lia).
      replace (items u w1) with (items u w); [done|].
      unfold items. by rewrite Hs1, lookup_app_l.
  - exfalso. destruct Hr as [[Hlen _]|[_ Hno]].
    + vm_compute in Hlen. lia.
    + apply Hno, SEO_KEYWORDS_weights_ok.
  - exfalso. vm_compute in Hr. lia.
Qed.

(** * The claims about the sampler and the prompt composer *)

(** C1. Whatever the random source draws, the prompt that [generate_prompt]
    returns contains each keyword of the caller's list as a substring; and
    on the table of [load_keywords], as [generate_review] calls it, it does
    return a prompt. *)
Theorem generate_prompt_contains_keywords (w : world) (u : loc) (ks : list string) :
  strs w !! u = Some ks -> ks <> [] ->
  (forall kd p w',
      generate_prompt u kd w = (Ok p, w') ->
      forall k, k ∈ ks -> contains p k)
  /\ exists p w',
       (kd <- load_keywords ;; generate_prompt u kd) w = (Ok p, w')
       /\ forall k, k ∈ ks -> contains p k.
Proof.
  intros Hu _.
  assert (Hlt : u < length (strs w)) by (by eapply lookup_lt_Some).
  rewrite <- (items_lookup _ _ _ Hu). split.
  - intros kd p w' Hrun k Hk.
    destruct (generate_prompt_spec u kd w) as (r & w2 & Hrun' & _ & _ & _ & Hr).
    rewrite Hrun in Hrun'. injection Hrun' as <- <-.
    destruct Hr as (all & b & s & -> & _ & _ & _ & _ & _ & Hperm).
    apply contains_prompt_text. rewrite (Hperm Hlt). apply elem_of_app. by left.
  - destruct (generate_prompt_fixed_table u w)
      as (kd & w1 & p & w' & _ & _ & Hrun & _ & _ & _ & Hp).
    destruct Hp as (all & b & s & -> & _ & _ & _ & _ & _ & Hperm).
    exists (prompt_text all), w'. split; [done|]. intros k Hk.
    apply contains_prompt_text. rewrite (Hperm Hlt). apply elem_of_app. by left.
Qed.

Lemma generate_prompt_contains_keywords_witness :
  let w := World [["tasty"; "fresh"]] [] [7; 3; 100; 5; 1; 4; 2; 0] [] in
  (forall kd p w',
      generate_prompt 0 kd w = (Ok p, w') ->
      forall k, k ∈ ["tasty"; "fresh"] -> contains p k)
  /\ exists p w',
       (kd <- load_keywords ;; generate_prompt 0 kd) w = (Ok p, w')
       /\ forall k, k ∈ ["tasty"; "fresh"] -> contains p k.
Proof.
  apply (generate_prompt_contains_keywords
           (World [["tasty"; "fresh"]] [] [7; 3; 100; 5; 1; 4; 2; 0] [])
           0 ["tasty"; "fresh"]); [reflexivity | discriminate].
Defined.

(** C5. On an empty SEO table [select_weighted_seo] raises, for every
    count [k], also [k = 0]: [choices] reads the last cumulative weight
    before it draws anything.  The state is left as it was. *)
Theorem select_weighted_seo_empty_table (w : world) (l : loc) (k : nat) :
  seos w !! l = Some [] ->
  select_weighted_seo l k w
  = (Raise (Exn IndexError "list index out of range"), w)
  /\ InvalidInputError (Exn IndexError "list index out of range").
Proof.
  intros Hl. split; [|by right].
  unfold select_weighted_seo.
  rewrite (bind_ok (read_seo_list l) _ w [] w)
    by (unfold read_seo_list; by rewrite Hl).
  reflexivity.
Qed.

Lemma select_weighted_seo_empty_table_witness :
  select_weighted_seo 0 2 (World [] [[]] [4; 9] [])
  = (Raise (Exn IndexError "list index out of range"), World [] [[]] [4; 9] [])
  /\ InvalidInputError (Exn IndexError "list index out of range").
Proof.
  apply (select_weighted_seo_empty_table (World [] [[]] [4; 9] []) 0 2).
  reflexivity.
Defined.

(** C6, as amended. On a backend list of at least two entries, none of
    them repeated, the two phrases of one call are different entries of
    the list.  [sample] never raises there; on a list of more than 21
    entries it draws positions until one is new, and does not return if
    the random source never gives a new one. *)
Theorem sample_two_distinct_phrases (w : world) (p : loc) :
  NoDup (items p w) -> 2 <= length (items p w) ->
  match sample p 2 w with
  | (Ok r, w') =>
      exists a b, items r w' = [a; b] /\ a <> b
                  /\ a ∈ items p w /\ b ∈ items p w
  | (Raise _, _) => False
  | (Diverge, _) => 21 < length (items p w)
  end.
Proof.
  intros Hnd Hlen.
  destruct (sample_spec p 2 w) as (r & w' & -> & _ & _ & _ & Hr).
  destruct r as [l|e|]; [| lia | by destruct Hr].
  destruct Hr as (_ & res & Hres & Hl & Hin & Hnd').
  rewrite (items_lookup _ _ _ Hres).
  destruct res as [|a [|b [|c res]]]; try done.
  exists a, b. specialize (Hnd' Hnd). split; [done|].
  apply NoDup_cons in Hnd' as [Hab _]. repeat split.
  - intros ->. apply Hab. by left.
  - apply Hin. by left.
  - apply Hin. right. by left.
Qed.

Lemma sample_two_distinct_phrases_witness :
  match sample 0 2 (World [["a"; "b"; "c"]] [] [0; 0] []) with
  | (Ok r, w') =>
      exists a b, items r w' = [a; b] /\ a <> b
                  /\ a ∈ items 0 (World [["a"; "b"; "c"]] [] [0; 0] [])
                  /\ b ∈ items 0 (World [["a"; "b"; "c"]] [] [0; 0] [])
  | (Raise _, _) => False
  | (Diverge, _) =>
      21 < length (items 0 (World [["a"; "b"; "c"]] [] [0; 0] []))
  end.
Proof.
  apply (sample_two_distinct_phrases (World [["a"; "b"; "c"]] [] [0; 0] []) 0).
  - apply (bool_decide_unpack _). by vm_compute.
  - vm_compute. lia.
Defined.

(** C6, as stated, fails: a list with two distinct entries may hold one of
    them twice, and [sample] draws positions, not values. *)
Lemma sample_two_distinct_phrases_counterexample :
  ~ (forall (w : world) (p r : loc) (w' : world) (a b : string),
        (exists x y, x ∈ items p w /\ y ∈ items p w /\ x <> y) ->
        sample p 2 w = (Ok r, w') ->
        items r w' = [a; b] ->
        a <> b).
Proof.
  intros H.
  apply (H (World [["a"; "a"; "b"]] [] [0; 1] []) 0 2
           (World [["a"; "a"; "b"]; ["b"; "a"; "b"]; ["a"; "a"]] [] [] [])
           "a" "a"); try reflexivity.
  exists "a", "b". repeat split; [by left | by right; right; left | done].
Qed.

(** C7. With fewer than two backend entries the sampling step raises the
    [ValueError] of [random.sample], and so does [generate_prompt]; nothing
    has been drawn or built by then. *)
Theorem sample_fewer_than_two_backend (w : world) (u : loc) (kd : keyword_table) :
  length (items (backend_keywords kd) w) < 2 ->
  sample (backend_keywords kd) 2 w = (Raise sample_error, w)
  /\ generate_prompt u kd w = (Raise sample_error, w)
  /\ InvalidInputError sample_error.
Proof.
  intros Hlen.
  assert (Hs : sample (backend_keywords kd) 2 w = (Raise sample_error, w)).
  { unfold sample.
    rewrite (bind_ok (read_list (backend_keywords kd)) _ w
               (items (backend_keywords kd) w) w eq_refl).
    by rewrite decide_False by lia. }
  split; [done|]. split; [|by left].
  unfold generate_prompt. by rewrite (bind_raise _ _ _ _ _ Hs).
Qed.

Lemma sample_fewer_than_two_backend_witness :
  let w := World [["tasty"]; ["only one"]] [SEO_KEYWORDS] [1; 2; 3] [] in
  sample 1 2 w = (Raise sample_error, w)
  /\ generate_prompt 0 (KeywordTable 0 1 0) w = (Raise sample_error, w)
  /\ InvalidInputError sample_error.
Proof.
  apply (sample_fewer_than_two_backend
           (World [["tasty"]; ["only one"]] [SEO_KEYWORDS] [1; 2; 3] [])
           0 (KeywordTable 0 1 0)).
  vm_compute. lia.
Defined.

(** C8. [generate_prompt] changes no list object that exists when it is
    called, however it ends: the heap of string lists afterwards is the
    heap before followed by new objects (the pool, the sample, the
    combined list that is shuffled), and the SEO tables are the same.  So
    the caller's list and the three lists of the table are as they were. *)
Theorem generate_prompt_leaves_inputs_unchanged
    (w : world) (u : loc) (kd : keyword_table) :
  u < length (strs w) ->
  user_keywords kd < length (strs w) ->
  backend_keywords kd < length (strs w) ->
  let w' := (generate_prompt u kd w).2 in
  items u w' = items u w
  /\ items (user_keywords kd) w' = items (user_keywords kd) w
  /\ items (backend_keywords kd) w' = items (backend_keywords kd) w
  /\ seos w' !! seo_keywords kd = seos w !! seo_keywords kd
  /\ take (length (strs w)) (strs w') = strs w
  /\ seos w' = seos w.
Proof.
  intros Hu Huk Hbk w'.
  destruct (generate_prompt_spec u kd w)
    as (r & w2 & Hrun & [extra Hs] & Hseo & _ & _).
  subst w'. rewrite Hrun. cbn [snd].
  assert (Hkeep : forall l, l < length (strs w) -> items l w2 = items l w).
  { intros l Hl. unfold items. by rewrite Hs, lookup_app_l. }
  repeat split; try (by apply Hkeep); try done.
  - by rewrite Hseo.
  - by rewrite Hs, take_app_length.
Qed.

Lemma generate_prompt_leaves_inputs_unchanged_witness :
  let w := World [["tasty"; "fresh"]; USER_KEYWORDS; BACKEND_KEYWORDS]
             [SEO_KEYWORDS] [7; 3; 100; 5; 1; 4; 2; 0] [] in
  let w' := (generate_prompt 0 (KeywordTable 1 2 0) w).2 in
  items 0 w' = items 0 w
  /\ items 1 w' = items 1 w
  /\ items 2 w' = items 2 w
  /\ seos w' !! 0 = seos w !! 0
  /\ take (length (strs w)) (strs w') = strs w
  /\ seos w' = seos w.
Proof.
  apply (generate_prompt_leaves_inputs_unchanged
           (World [["tasty"; "fresh"]; USER_KEYWORDS; BACKEND_KEYWORDS]
              [SEO_KEYWORDS] [7; 3; 100; 5; 1; 4; 2; 0] [])
           0 (KeywordTable 1 2 0)); vm_compute; lia.
Defined.

(** C10. The table of [load_keywords] meets what the sampling steps ask
    for: an SEO list that is not empty, with positive weights, and at least
    two backend phrases.  On it, in every state and whatever is drawn,
    [sample] returns, [select_weighted_seo] returns, and so does
    [generate_prompt]. *)
Theorem load_keywords_meets_sampling_preconditions :
  SEO_KEYWORDS <> []
  /\ Forall (fun e => (0 < weight e)%Z) SEO_KEYWORDS
  /\ 2 <= length BACKEND_KEYWORDS
  /\ forall (w : world) (u : loc),
       exists kd w1,
         load_keywords w = (Ok kd, w1)
         /\ items (backend_keywords kd) w1 = BACKEND_KEYWORDS
         /\ seos w1 !! seo_keywords kd = Some SEO_KEYWORDS
         /\ (exists backend w2,
               sample (backend_keywords kd) 2 w1 = (Ok backend, w2)
               /\ exists seo w3,
                    select_weighted_seo (seo_keywords kd) 2 w2 = (Ok seo, w3))
         /\ exists p w', generate_prompt u kd w1 = (Ok p, w').
Proof.
  split; [done|]. split; [by repeat constructor|]. split; [vm_compute; lia|].
  intros w u.
  destruct (generate_prompt_fixed_table u w)
    as (kd & w1 & p & w' & Hload & Hrun & _).
  destruct (load_keywords_spec w)
    as (kd' & w1' & Hload' & Hs1 & Hseo1 & _ & _ & _ & Hb & Hseo).
  rewrite Hload in Hload'. injection Hload' as <- <-.
  assert (Hbk : items (backend_keywords kd) w1 = BACKEND_KEYWORDS).
  { apply items_lookup. rewrite Hs1, Hb.
    by rewrite (lookup_app_r _ _ (S (length (strs w)))), Nat.sub_succ_l,
      Nat.sub_diag by lia. }
  assert (Hsk : seos w1 !! seo_keywords kd = Some SEO_KEYWORDS).
  { by rewrite Hseo1, Hseo, list_lookup_middle. }
  exists kd, w1. repeat split; try done; [|by exists p, w'].
  destruct (sample_spec (backend_keywords kd) 2 w1)
    as (r & w2 & Hsample & _ & Hseo2 & _ & Hr).
  rewrite Hbk in Hr.
  destruct r as [backend|e|];
    [| destruct Hr as [Hr _]; vm_compute in Hr; lia
     | destruct Hr as [_ Hr]; vm_compute in Hr; lia].
  exists backend, w2. split; [done|].
  destruct (select_weighted_seo_cases (seo_keywords kd) 2 w2)
    as (r & w3 & Hsel & _ & _ & _ & Hr2).
  rewrite Hseo2, Hsk in Hr2. cbn [default] in Hr2.
  destruct r as [seo|e|]; [by exists seo, w3 | | done].
  exfalso. apply Hr2, SEO_KEYWORDS_weights_ok.
Qed.

(** * The place lookup and the handlers *)

Local Ltac no_place :=
  let H := fresh in
  intros ? (? & ? & ? & H & ? & ? & ?); by simplify_eq.

Lemma get_google_place_id_spec E w :
  exists v w',
    get_google_place_id E w = (Ok v, w')
    /\ strs w' = strs w /\ seos w' = seos w /\ tape w' = tape w
    /\ match GOOGLE_PLACES_API_KEY E with
       | None => v = JNull /\ calls w' = calls w
       | Some key =>
           if String.eqb key "" then v = JNull /\ calls w' = calls w
           else
             calls w' = places_call key :: calls w
             /\ match places_answer E (places_call key :: calls w) with
                | Parsed data =>
                    (forall pid, names_place data pid -> v = pid)
                    /\ ((forall pid, ~ names_place data pid) -> v = JNull)
                | _ => v = JNull
                end
       end.
Proof.
  unfold get_google_place_id.
  destruct (GOOGLE_PLACES_API_KEY E) as [key|]; [|by exists JNull, w].
  destruct (String.eqb key ""); [by exists JNull, w|].
  unfold try_except, bind at 1, requests_get_json, bind at 1, log_call.
  cbn [fst snd calls set_calls].
  destruct (places_answer E (places_call key :: calls w)) as [e|e|data];
    [by eexists JNull, _ | by eexists JNull, _ |].
  set (w1 := set_calls _ w). unfold ret at 1.
  match goal with |- context [let (_, _) := ?m w1 in _] => set (body := m) end.
  assert (Hbody : exists r,
             body w1 = (r, w1) /\ r <> Diverge
             /\ (forall pid, names_place data pid -> r = Ok pid)
             /\ ((forall pid, ~ names_place data pid) ->
                 r = Ok JNull \/ exists e, r = Raise e)).
  { subst body.
    destruct data as [|b|z|s|l|d];
      try (eexists; split; [reflexivity|]; split; [done|]; split;
           [no_place | intros; right; by eexists]).
    cbn [dict_get]. unfold bind at 1, ret at 1.
    destruct (assoc "status" d) as [st|] eqn:Hst; cbv [default from_option id].
    2:{ eexists; split; [reflexivity|]. split; [done|]. split; [no_place | by left]. }
    destruct (is_OK st) eqn:HOK.
    2:{ eexists; split; [reflexivity|]. split; [done|]. split; [no_place | by left]. }
    destruct st as [| | |s| |]; try done.
    apply String.eqb_eq in HOK as ->.
    unfold bind at 1, ret at 1.
    destruct (assoc "candidates" d) as [cands|] eqn:Hc; cbv [default from_option id].
    2:{ eexists; split; [reflexivity|]. split; [done|]. split; [no_place | by left]. }
    destruct (truthy cands) eqn:Ht.
    2:{ eexists; split; [reflexivity|]. split; [done|]. split; [no_place | by left]. }
    cbn [subscript_key]. rewrite Hc. unfold bind at 1, ret at 1.
    destruct cands as [| | |s|[|c cs]|d']; try done;
      try (eexists; split; [reflexivity|]; split; [done|]; split;
           [no_place | intros; right; by eexists]).
    { (* a string: its first character has no [place_id] *)
      destruct s; [done|].
      eexists; split; [reflexivity|]; split; [done|]; split;
        [no_place | intros; right; by eexists]. }
    cbn [subscript_0]. unfold bind at 1, ret at 1.
    destruct c as [| | | | |c];
      try (eexists; split; [reflexivity|]; split; [done|]; split;
           [no_place | intros; right; by eexists]).
    cbn [subscript_key].
    destruct (assoc "place_id" c) as [pid|] eqn:Hpid.
    - exists (Ok pid). split; [done|]. split; [done|]. split.
      + intros pid' (d0 & c0 & cs0 & Hd & _ & Hc' & Hp'). by simplify_eq.
      + intros Hnone. destruct (Hnone pid). by exists d, c, cs.
    - eexists; split; [reflexivity|]; split; [done|]; split;
        [no_place | intros; right; by eexists]. }
  destruct Hbody as (r & -> & Hr & Hsome & Hnone).
  destruct r as [v|e|].
  - exists v, w1. split; [done|]. repeat split; try done.
    + intros pid Hp. specialize (Hsome _ Hp). by simplify_eq.
    + intros Hn. by destruct (Hnone Hn) as [?|[? ?]]; simplify_eq.
  - exists JNull, w1. split; [done|]. repeat split; try done.
    intros pid Hp. by specialize (Hsome _ Hp).
  - done.
Qed.

(** ** Requests whose keywords are not a list of strings *)

Lemma as_strings_map ks : as_strings (map JStr ks) = Some ks.
Proof. induction ks as [|k ks IH]; [done|]. cbn. by rewrite IH. Qed.

Lemma as_strings_Some its : forall ks,
  as_strings its = Some ks -> its = map JStr ks.
Proof.
  induction its as [|x its IH]; intros ks H; [by injection H as <-|].
  destruct x as [| | |s| |]; try done. cbn in H.
  destruct (as_strings its) as [ss|]; [|done].
  injection H as <-. cbn. by rewrite (IH ss eq_refl).
Qed.

Lemma as_strings_None its :
  as_strings its = None -> exists v, v ∈ its /\ forall s, v <> JStr s.
Proof.
  induction its as [|x its IH]; [done|]. intros H.
  destruct x as [| | |s| |]; try (eexists; split; [by left | done]).
  cbn in H. destruct (as_strings its); [done|].
  destruct (IH eq_refl) as (v & Hv & Hs). exists v. split; [by right | done].
Qed.

(** [join] returns or raises a [TypeError], and changes nothing. *)
Lemma strings_from_cases xs : forall i w,
  exists r,
    strings_from i xs w = (r, w)
    /\ match r with
       | Ok _ => True
       | Raise e => exn_class_of e = TypeError
       | Diverge => False
       end.
Proof.
  induction xs as [|x xs IH]; intros i w; [by exists (Ok [])|].
  destruct x as [| | |s| |]; try (eexists; split; [reflexivity | done]).
  cbn [strings_from]. destruct (IH (S i) w) as (r & Hr & Hcase).
  destruct r as [ss|e|]; [| |done].
  - rewrite (bind_ok _ _ _ _ _ Hr). by eexists.
  - rewrite (bind_raise _ _ _ _ _ Hr). by exists (Raise e).
Qed.

Lemma strings_from_raises xs :
  (exists v, v ∈ xs /\ forall s, v <> JStr s) ->
  forall i w, exists e,
    strings_from i xs w = (Raise e, w) /\ exn_class_of e = TypeError.
Proof.
  induction xs as [|x xs IH]; intros (v & Hv & Hs) i w.
  - by apply elem_of_nil in Hv.
  - destruct x as [| | |s| |]; try (eexists; split; [reflexivity | done]).
    apply elem_of_cons in Hv as [->|Hv]; [by destruct (Hs s)|].
    destruct (IH (ex_intro _ v (conj Hv Hs)) (S i) w) as (e & He & Hc).
    exists e. cbn [strings_from]. by rewrite (bind_raise _ _ _ _ _ He).
Qed.

(** The shuffle of the sum returns a permutation of it. *)
Lemma shuffle_value_loop_spec : forall i xs w,
  i < length xs \/ i = 0 ->
  exists ys w',
    shuffle_value_loop xs i w = (Ok ys, w')
    /\ ys ≡ₚ xs
    /\ strs w' = strs w /\ seos w' = seos w /\ calls w' = calls w.
Proof.
  induction i as [|i IH]; intros xs w Hi.
  - by exists xs, w.
  - destruct Hi as [Hi|]; [|done]. cbn [shuffle_value_loop].
    destruct (randbelow_spec (S i + 1) w ltac:(lia)) as (j & t & Hj & Hlt).
    rewrite (bind_ok _ _ _ _ _ Hj).
    assert (Hjl : j < length xs) by lia.
    destruct (lookup_lt_is_Some_2 xs j Hjl) as [xj Hxj].
    destruct (lookup_lt_is_Some_2 xs (S i) Hi) as [xi Hxi].
    set (w1 := set_tape t w).
    rewrite (bind_ok (index xs j) _ w1 xj w1) by (unfold index; by rewrite Hxj).
    rewrite (bind_ok (index xs (S i)) _ w1 xi w1)
      by (unfold index; by rewrite Hxi).
    destruct (IH (<[j := xi]> (<[S i := xj]> xs)) w1)
      as (ys & w' & Hrun & Hp & Hs & Hseo & Hc).
    { left. rewrite !length_insert. lia. }
    exists ys, w'. split; [done|]. split; [|done].
    rewrite Hp. by apply Permutation_insert_swap.
Qed.

(** Everything [generate_prompt] can do on keywords that need not be a list
    of strings: it returns a prompt only when they are one. *)
Lemma generate_prompt_other_spec v kd w :
  let bk := items (backend_keywords kd) w in
  let sk := default [] (seos w !! seo_keywords kd) in
  exists r w',
    generate_prompt_other v kd w = (r, w')
    /\ (exists extra, strs w' = strs w ++ extra)
    /\ seos w' = seos w /\ calls w' = calls w
    /\ match r with
       | Ok _ => keywords_of v <> None
       | Raise e =>
           (length bk < 2 /\ e = sample_error)
           \/ (2 <= length bk /\ ~ weights_ok (map weight sk))
           \/ exn_class_of e = TypeError
       | Diverge => 21 < length bk
       end.
Proof.
  intros bk sk. unfold generate_prompt_other.
  destruct (sample_spec (backend_keywords kd) 2 w)
    as (r1 & w1 & Hrun1 & [e1 Hs1] & Hseo1 & Hc1 & Hr1).
  destruct r1 as [backend|e|].
  2:{ exists (Raise e), w1. rewrite (bind_raise _ _ _ _ _ Hrun1).
      repeat split; try done; [by exists e1|].
      left. by destruct Hr1 as (? & ? & ?). }
  2:{ exists Diverge, w1. rewrite (bind_diverge _ _ _ _ Hrun1).
      repeat split; try done; [by exists e1 | by destruct Hr1]. }
  rewrite (bind_ok _ _ _ _ _ Hrun1).
  destruct Hr1 as (Hk & _).
  destruct (select_weighted_seo_cases (seo_keywords kd) 2 w1)
    as (r2 & w2 & Hrun2 & Hs2 & Hseo2 & Hc2 & Hr2).
  rewrite Hseo1 in Hr2. fold sk in Hr2.
  destruct r2 as [s|e|]; [| |done].
  2:{ exists (Raise e), w2. rewrite (bind_raise _ _ _ _ _ Hrun2).
      repeat split; try congruence; [exists e1; congruence | by right; left]. }
  rewrite (bind_ok _ _ _ _ _ Hrun2).
  assert (Hgrow : exists extra, strs w2 = strs w ++ extra)
    by (exists e1; congruence).
  assert (Hseo : seos w2 = seos w) by congruence.
  assert (Hc : calls w2 = calls w) by congruence.
  destruct v as [|bb|z|str|its|d];
    try (eexists _, w2; split; [reflexivity|]; repeat split; try done;
         by right; right).
  rewrite (bind_ok (read_list backend) _ w2 (items backend w2) w2 eq_refl).
  set (all0 := its ++ map JStr (items backend w2) ++ map JStr s).
  destruct (shuffle_value_loop_spec (length all0 - 1) all0 w2)
    as (ys & w3 & Hrun3 & Hp & Hs3 & Hseo3 & Hc3).
  { destruct all0; simpl; [by right | left; lia]. }
  rewrite (bind_ok (shuffle_value all0) _ w2 ys w3 Hrun3).
  destruct (strings_from_cases ys 0 w3) as (r & Hr & Hcase).
  destruct r as [ss|e|]; [| |done].
  - rewrite (bind_ok _ _ _ _ _ Hr).
    eexists _, w3. split; [reflexivity|].
    repeat split; try congruence; [destruct Hgrow as [x Hx]; exists x; congruence|].
    cbn [keywords_of]. intros Hnone.
    destruct (as_strings_None its Hnone) as (v & Hv & Hns).
    destruct (strings_from_raises ys) with (i := 0) (w := w3) as (e & He & _).
    { exists v. split; [|done]. rewrite Hp. apply elem_of_app. by left. }
    congruence.
  - rewrite (bind_raise _ _ _ _ _ Hr).
    eexists _, w3. split; [reflexivity|].
    repeat split; try congruence; [destruct Hgrow as [x Hx]; exists x; congruence|].
    by right; right.
Qed.

(** With the fixed table, keywords that are not a list of strings end in a
    [TypeError]. *)
Lemma generate_prompt_other_fixed_table v w :
  keywords_of v = None ->
  exists kd w1 e w',
    load_keywords w = (Ok kd, w1)
    /\ generate_prompt_other v kd w1 = (Raise e, w')
    /\ exn_class_of e = TypeError
    /\ calls w' = calls w.
Proof.
  intros Hv.
  destruct (load_keywords_spec w)
    as (kd & w1 & Hload & Hs1 & Hseo1 & Hc1 & _ & _ & Hb & Hseo).
  destruct (generate_prompt_other_spec v kd w1)
    as (r & w' & Hrun & _ & _ & Hc & Hr).
  assert (Hbk : items (backend_keywords kd) w1 = BACKEND_KEYWORDS).
  { apply items_lookup. rewrite Hs1, Hb.
    by rewrite (lookup_app_r _ _ (S (length (strs w)))), Nat.sub_succ_l,
      Nat.sub_diag by lia. }
  assert (Hsk : default [] (seos w1 !! seo_keywords kd) = SEO_KEYWORDS).
  { by rewrite Hseo1, Hseo, list_lookup_middle. }
  rewrite Hbk, Hsk in Hr.
  destruct r as [p|e|].
  - done.
  - exists kd, w1, e, w'. split; [done|]. split; [done|].
    split; [|congruence].
    destruct Hr as [[Hlen _]|[[_ Hno]|Hcls]]; [| |done].
    + vm_compute in Hlen. lia.
    + destruct Hno. apply SEO_KEYWORDS_weights_ok.
  - exfalso. vm_compute in Hr. lia.
Qed.


Lemma get_selected_not_object data w :
  (forall d, data <> JObject d) ->
  get_selected data w = (Raise (no_get_error data), w).
Proof. intros Hd. destruct data as [| | | | |d]; try done. by destruct (Hd d). Qed.

Lemma get_selected_other d v w :
  assoc "selectedKeywords" d = Some v -> keywords_of v = None ->
  get_selected (JObject d) w = (Ok (PJson v), set_strs (strs w ++ [[]]) w).
Proof.
  intros Hd Hv. cbn [get_selected]. rewrite Hd.
  destruct v as [| | | |its|]; try done. cbn in Hv. by rewrite Hv.
Qed.

(** [generate_review], case by case, with the answer of each case.  It
    always answers: with 500 when the body is not a JSON object; with 400,
    before anything else happens, when the object gives no keyword; with
    500 when the keywords are not a list of strings.  Otherwise the prompt
    is composed and sent to the text-generation service, whose failure
    gives a 500, and whose text gives a 200 after the place lookup. *)
Lemma generate_review_run E req w :
  exists resp w',
    generate_review E req w = (Ok resp, w')
    /\ match selected_of req with
       | inl e => resp = error_response e /\ w' = w
       | inr v =>
           if truthy v then
             match keywords_of v with
             | Some ks =>
                 exists prompt w1,
                   calls w1 = groq_call prompt :: calls w
                   /\ (forall k, k ∈ ks -> contains prompt k)
                   /\ match groq_answer E (groq_call prompt :: calls w) with
                      | GroqRaises e => resp = error_response e /\ w' = w1
                      | GroqReturns [] =>
                          resp = error_response
                                   (Exn IndexError "list index out of range")
                          /\ w' = w1
                      | GroqReturns (None :: _) =>
                          resp = error_response
                                   (Exn AttributeError
                                      "'NoneType' object has no attribute 'strip'")
                          /\ w' = w1
                      | GroqReturns (Some content :: _) =>
                          exists pid,
                            get_google_place_id E w1 = (Ok pid, w')
                            /\ resp = Response 200
                                        (review_body E (strip content) prompt pid)
                      end
             | None =>
                 calls w' = calls w
                 /\ exists e,
                      exn_class_of e = TypeError /\ resp = error_response e
             end
           else
             resp = Response 400 (JObject [("error", JStr "No keywords provided")])
             /\ calls w' = calls w /\ tape w' = tape w
       end.
Proof.
  unfold generate_review, try_except.
  destruct req as [e|data].
  { rewrite (bind_raise (get_json (NotJson e)) _ w e w eq_refl). by eexists _, w. }
  rewrite (bind_ok (get_json (Json data)) _ w data w eq_refl).
  destruct data as [|b|z|s|l|d];
    try (match goal with
         | |- context [get_selected ?v] =>
             rewrite (bind_raise (get_selected v) _ w (no_get_error v) w eq_refl)
         end; by eexists _, w).
  cbn [selected_of].
  destruct (assoc "selectedKeywords" d) as [v|] eqn:Hsel;
    cbv [default from_option id].
  2:{ (* the key is absent *)
      set (wa := set_strs (strs w ++ [[]]) w).
      rewrite (bind_ok (get_selected (JObject d)) _ w (PList (length (strs w))) wa)
        by (cbn [get_selected]; by rewrite Hsel).
      rewrite (bind_ok (truth_of (PList (length (strs w)))) _ wa false wa).
      2:{ unfold truth_of.
          rewrite (bind_ok (read_list (length (strs w))) _ wa [] wa); [done|].
          unfold read_list, items. subst wa; cbn. by rewrite list_lookup_middle. }
      cbn [truthy]. by eexists _, wa. }
  destruct (keywords_of v) as [ks|] eqn:Hkw.
  2:{ (* the value is not a list of strings *)
      set (wa := set_strs (strs w ++ [[]]) w).
      rewrite (bind_ok _ _ _ _ _ (get_selected_other d v w Hsel Hkw)).
      rewrite (bind_ok (truth_of (PJson v)) _ wa (truthy v) wa eq_refl).
      destruct (truthy v); [|by eexists _, wa]. cbv beta iota.
      destruct (generate_prompt_other_fixed_table v wa Hkw)
        as (kd & w1 & e & w' & Hload & Hrun & Hcls & Hc).
      rewrite (bind_ok _ _ _ _ _ Hload). cbv beta iota.
      rewrite (bind_raise _ _ _ _ _ Hrun).
      eexists _, w'. split; [reflexivity|]. split; [by rewrite Hc|]. by exists e. }
  destruct v as [| | | |its|]; try done. cbn [keywords_of] in Hkw.
  set (u := length (strs w)).
  set (w0 := set_strs (strs w ++ [ks]) w).
  set (wa := set_strs (strs w0 ++ [[]]) w0).
  rewrite (bind_ok (get_selected (JObject d)) _ w (PList u) wa)
    by (cbn [get_selected]; by rewrite Hsel, Hkw).
  assert (Hu : strs wa !! u = Some ks).
  { subst wa w0 u; cbn. rewrite lookup_app_l by (rewrite length_app; simpl; lia).
    by apply list_lookup_middle. }
  rewrite (bind_ok (truth_of (PList u)) _ wa
             (match ks with [] => false | _ => true end) wa).
  2:{ unfold truth_of. rewrite (bind_ok (read_list u) _ wa ks wa); [done|].
      unfold read_list. by rewrite (items_lookup _ _ _ Hu). }
  assert (Htr : truthy (JList its) = match ks with [] => false | _ => true end).
  { rewrite (as_strings_Some its ks Hkw). by destruct ks. }
  rewrite Htr.
  destruct ks as [|k0 ks0]; [by eexists _, wa|].
  set (ks := k0 :: ks0) in *. cbv beta iota.
  destruct (generate_prompt_fixed_table u wa)
    as (kd & wb & p & wc & Hload & Hrun & _ & _ & _ & Hc & Hp).
  rewrite (bind_ok _ _ _ _ _ Hload). cbv beta iota.
  rewrite (bind_ok _ _ _ _ _ Hrun).
  assert (Hcw : calls wc = calls w) by (by rewrite Hc).
  assert (Hcontains : forall k, k ∈ ks -> contains p k).
  { destruct Hp as (all & b & s & -> & _ & _ & _ & _ & _ & Hperm).
    intros k Hk. apply contains_prompt_text.
    rewrite Hperm by (by eapply lookup_lt_Some).
    rewrite (items_lookup _ _ _ Hu). apply elem_of_app. by left. }
  set (w1 := set_calls (groq_call p :: calls wc) wc).
  assert (Hc1 : calls w1 = groq_call p :: calls w) by (subst w1; cbn; by rewrite Hcw).
  assert (Hchat : chat_completions_create E p wc
                  = (match groq_answer E (groq_call p :: calls w) with
                     | GroqRaises e => Raise e
                     | GroqReturns choices => Ok choices
                     end, w1)).
  { unfold chat_completions_create, bind, log_call. subst w1. rewrite Hcw.
    by destruct (groq_answer _ _). }
  destruct (groq_answer E (groq_call p :: calls w)) as [e|choices] eqn:Hans.
  { rewrite (bind_raise _ _ _ _ _ Hchat).
    eexists _, w1. split; [reflexivity|].
    exists p, w1. by rewrite Hans. }
  rewrite (bind_ok _ _ _ _ _ Hchat).
  destruct choices as [|[content|] choices].
  { eexists _, w1. split; [reflexivity|].
    exists p, w1. by rewrite Hans. }
  2:{ eexists _, w1. split; [reflexivity|].
      exists p, w1. by rewrite Hans. }
  rewrite (bind_ok (index (Some content :: choices) 0) _ w1 (Some content) w1 eq_refl).
  rewrite (bind_ok (ret (strip content)) _ w1 (strip content) w1 eq_refl).
  destruct (get_google_place_id_spec E w1) as (pid & w' & Hpid & _).
  rewrite (bind_ok _ _ _ _ _ Hpid).
  eexists _, w'. split; [reflexivity|].
  exists p, w1. rewrite Hans. repeat split; try done. by exists pid.
Qed.

(** A request that sends keywords goes as far as the text-generation
    service. *)
Lemma generate_review_keywords E req w k ks :
  sends_keywords req (k :: ks) ->
  exists resp w',
    generate_review E req w = (Ok resp, w')
    /\ exists prompt w1,
         calls w1 = groq_call prompt :: calls w
         /\ (forall k', k' ∈ k :: ks -> contains prompt k')
         /\ match groq_answer E (groq_call prompt :: calls w) with
            | GroqRaises e => resp = error_response e /\ w' = w1
            | GroqReturns [] =>
                resp = error_response (Exn IndexError "list index out of range")
                /\ w' = w1
            | GroqReturns (None :: _) =>
                resp = error_response
                         (Exn AttributeError
                            "'NoneType' object has no attribute 'strip'")
                /\ w' = w1
            | GroqReturns (Some content :: _) =>
                exists pid,
                  get_google_place_id E w1 = (Ok pid, w')
                  /\ resp = Response 200
                              (review_body E (strip content) prompt pid)
            end.
Proof.
  intros (d & -> & Hd).
  destruct (generate_review_run E (Json (JObject d)) w)
    as (resp & w' & Hrun & Hresp).
  exists resp, w'. split; [done|].
  cbn [selected_of] in Hresp. rewrite Hd in Hresp.
  cbv [default from_option id] in Hresp.
  change (truthy (JList (map JStr (k :: ks)))) with true in Hresp.
  cbn [keywords_of] in Hresp. by rewrite as_strings_map in Hresp.
Qed.


Lemma get_keywords_spec w :
  exists w', get_keywords w = (Ok (Response 200 KEYWORDS_JSON), w').
Proof.
  unfold get_keywords.
  destruct (load_keywords_spec w)
    as (kd & w1 & Hload & Hs & Hseo & _ & _ & Hu & Hb & Hse).
  rewrite (bind_ok _ _ _ _ _ Hload). exists w1.
  assert (Hjson : jsonify_keywords kd w1 = (Ok KEYWORDS_JSON, w1)).
  { unfold jsonify_keywords.
    rewrite (bind_ok (read_list (user_keywords kd)) _ w1 USER_KEYWORDS w1).
    2:{ unfold read_list, items. by rewrite Hs, Hu, list_lookup_middle. }
    rewrite (bind_ok (read_list (backend_keywords kd)) _ w1 BACKEND_KEYWORDS w1).
    2:{ unfold read_list, items. rewrite Hs, Hb.
        by rewrite (lookup_app_r _ _ (S (length (strs w)))), Nat.sub_succ_l,
          Nat.sub_diag by lia. }
    rewrite (bind_ok (read_seo_list (seo_keywords kd)) _ w1 SEO_KEYWORDS w1).
    2:{ unfold read_seo_list. by rewrite Hseo, Hse, list_lookup_middle. }
    reflexivity. }
  by rewrite (bind_ok _ _ _ _ _ Hjson).
Qed.

Lemma lookup_fails_at_null E w v w' :
  get_google_place_id E w = (Ok v, w') ->
  lookup_fails_at E (calls w) -> v = JNull.
Proof.
  intros Hrun Hfail.
  destruct (get_google_place_id_spec E w)
    as (v' & w'' & Hrun' & _ & _ & _ & Hv).
  rewrite Hrun in Hrun'. injection Hrun' as <- <-.
  unfold lookup_fails_at in Hfail.
  destruct (GOOGLE_PLACES_API_KEY E) as [key|]; [|by destruct Hv].
  destruct (String.eqb_spec key "") as [->|Hne]; [by destruct Hv|].
  destruct Hfail as [?|Hfail]; [done|]. destruct Hv as [_ Hv].
  destruct (places_answer E _) as [e|e|data]; try done.
  by apply Hv.
Qed.

(** The lookup adds at most its own call to the log. *)
Lemma get_google_place_id_calls E w v w' :
  get_google_place_id E w = (Ok v, w') ->
  exists later, calls w' = later ++ calls w.
Proof.
  intros Hrun.
  destruct (get_google_place_id_spec E w)
    as (v' & w'' & Hrun' & _ & _ & _ & Hv).
  rewrite Hrun in Hrun'. injection Hrun' as <- <-.
  destruct (GOOGLE_PLACES_API_KEY E) as [key|]; [|exists []; by destruct Hv].
  destruct (String.eqb key ""); [exists []; by destruct Hv|].
  exists [places_call key]. by destruct Hv.
Qed.

(** * The claims about the handlers *)




(** C3. The place lookup always returns, and returns [None] when no key is
    configured, when the places service cannot be reached, when its answer
    is not JSON, and when the JSON names no place (no results or a
    malformed answer).  In [generate_review], once the text-generation
    service has returned a text the answer is a 200, whatever the places
    service does; when the lookup fails, the place identifier of the
    answer is null and its URL is the fallback search URL. *)
Theorem place_lookup_failure_degrades
    (E : env) (w : world) (req : request_body) :
  (exists v w',
      get_google_place_id E w = (Ok v, w')
      /\ (lookup_fails_at E (calls w) -> v = JNull))
  /\ google_review_url E JNull = SEARCH_URL
  /\ exists resp w',
       generate_review E req w = (Ok resp, w')
       /\ forall k ks,
            sends_keywords req (k :: ks) ->
            exists prompt later,
              calls w' = later ++ groq_call prompt :: calls w
              /\ forall content rest,
                   groq_answer E (groq_call prompt :: calls w)
                   = GroqReturns (Some content :: rest) ->
                   status resp = 200
                   /\ (lookup_fails_at E (groq_call prompt :: calls w) ->
                       resp = Response 200
                                (review_body E (strip content) prompt JNull)).
Proof.
  split.
  { destruct (get_google_place_id_spec E w) as (v & w' & Hrun & _).
    exists v, w'. split; [done|]. by apply (lookup_fails_at_null E w v w'). }
  split; [done|].
  destruct (generate_review_run E req w) as (resp & w' & Hrun & _).
  exists resp, w'. split; [done|]. intros k ks Hreq.
  destruct (generate_review_keywords E req w k ks Hreq)
    as (resp' & w'' & Hrun' & prompt & w1 & Hc1 & _ & Hans).
  rewrite Hrun in Hrun'. injection Hrun' as <- <-.
  exists prompt.
  assert (Hlater : exists later, calls w' = later ++ groq_call prompt :: calls w).
  { rewrite <- Hc1.
    destruct (groq_answer E _) as [e|[|[content|] rest]];
      try (destruct Hans as [_ ->]; by exists []).
    destruct Hans as (pid & Hpid & _).
    by apply (get_google_place_id_calls E w1 pid w'). }
  destruct Hlater as [later Hlater]. exists later. split; [done|].
  intros content rest Hgroq. rewrite Hgroq in Hans.
  destruct Hans as (pid & Hpid & ->). split; [done|].
  intros Hfail. rewrite <- Hc1 in Hfail.
  by rewrite (lookup_fails_at_null _ _ _ _ Hpid Hfail).
Qed.

Lemma place_lookup_failure_degrades_witness :
  exists prompt w',
    generate_review env_places_down a_request a_world
    = (Ok (Response 200
             (review_body env_places_down "Lovely dal pakwan." prompt JNull)),
       w').
Proof.
  destruct (place_lookup_failure_degrades env_places_down a_world a_request)
    as (_ & _ & resp & w' & Hrun & Hflow).
  destruct (Hflow "tasty" ["fresh"] (ex_intro _ _ (conj eq_refl eq_refl)))
    as (prompt & later & _ & Hprompt).
  destruct (Hprompt " Lovely dal pakwan. " [] eq_refl) as [_ Hresp].
  exists prompt, w'. rewrite Hrun, Hresp; [reflexivity|].
  right. exact I.
Defined.

(** C4. On [GET /api/restaurant-info] and on the success path of
    [generate_review] the URL of the answer is [google_review_url] of what
    the lookup returned: the deep link ending in the identifier when the
    lookup returned one (a true value; a string is written as it is, so
    for an identifier that is a non-empty string the URL is
    [https://search.google.com/local/writereview?placeid=] followed by
    it), and otherwise the search URL, which contains the quoted name and
    the quoted address of the restaurant.  The search URL is the Google
    search for the name, the address and [write review], separated by
    spaces and percent-escaped: every space is written [%20] and every
    comma [%2C]. *)
Theorem review_url_follows_lookup (E : env) (w : world) (req : request_body) :
  (forall pid,
      truthy pid = true ->
      google_review_url E pid = DEEP_LINK +:+ format_value E pid
      /\ contains (google_review_url E pid) (format_value E pid))
  /\ (forall s, format_value E (JStr s) = s)
  /\ (forall pid, truthy pid = false -> google_review_url E pid = SEARCH_URL)
  /\ contains SEARCH_URL (quote RESTAURANT_NAME)
  /\ contains SEARCH_URL (quote RESTAURANT_ADDRESS)
  /\ (forall s,
        s <> "" ->
        google_review_url E (JStr s)
        = "https://search.google.com/local/writereview?placeid=" +:+ s)
  /\ google_review_url E JNull = SEARCH_URL
  /\ google_review_url E (JStr "") = SEARCH_URL
  /\ quote RESTAURANT_NAME = "Hari%20Krushna%20Dal%20Pakwan"
  /\ quote RESTAURANT_ADDRESS
     = "24%2C%20Ambika%20Pinakal%2C%20Lajamni%20Chowk%2C%20Maruti%20Dham%20Society%2C%20Mota%20Varachha%2C%20Surat%2C%20Gujarat%20394101"
  /\ SEARCH_URL
     = "https://www.google.com/search?q=" +:+ quote RESTAURANT_NAME +:+ "%20"
       +:+ quote RESTAURANT_ADDRESS +:+ "%20write%20review"
  /\ SEARCH_URL
     = "https://www.google.com/search?q=Hari%20Krushna%20Dal%20Pakwan%2024%2C%20Ambika%20Pinakal%2C%20Lajamni%20Chowk%2C%20Maruti%20Dham%20Society%2C%20Mota%20Varachha%2C%20Surat%2C%20Gujarat%20394101%20write%20review"
  /\ (exists pid w',
        get_google_place_id E w = (Ok pid, w')
        /\ get_restaurant_info E w
           = (Ok (Response 200 (restaurant_info_body E pid)), w'))
  /\ (exists resp w',
        generate_review E req w = (Ok resp, w')
        /\ (status resp = 200 ->
            exists review prompt pid w1,
              calls w1 = groq_call prompt :: calls w
              /\ get_google_place_id E w1 = (Ok pid, w')
              /\ resp = Response 200 (review_body E review prompt pid))).
Proof.
  split.
  { intros pid Ht. unfold google_review_url. rewrite Ht. split; [done|].
    apply contains_app_r, contains_refl. }
  split; [done|].
  split.
  { intros pid Ht. unfold google_review_url. by rewrite Ht. }
  split.
  { exists "https://www.google.com/search?q=",
      (quote (" " +:+ RESTAURANT_ADDRESS +:+ " write review")).
    by vm_compute. }
  split.
  { exists ("https://www.google.com/search?q=" +:+ quote (RESTAURANT_NAME +:+ " ")),
      (quote " write review").
    by vm_compute. }
  split.
  { intros s Hs. unfold google_review_url. cbn [truthy format_value].
    destruct (String.eqb_spec s "") as [->|_]; done. }
  split; [done|]. split; [done|].
  split; [by vm_compute|]. split; [by vm_compute|].
  split; [by vm_compute|]. split; [by vm_compute|].
  split.
  { destruct (get_google_place_id_spec E w) as (pid & w' & Hrun & _).
    exists pid, w'. split; [done|]. unfold get_restaurant_info.
    by rewrite (bind_ok _ _ _ _ _ Hrun). }
  destruct (generate_review_run E req w) as (resp & w' & Hrun & Hresp).
  exists resp, w'. split; [done|]. intros Hstatus.
  destruct (selected_of req) as [e|v]; [by destruct Hresp as [-> _]|].
  destruct (truthy v); [|by destruct Hresp as [-> _]].
  destruct (keywords_of v) as [ks|]; [|by destruct Hresp as (_ & e & _ & ->)].
  destruct Hresp as (prompt & w1 & Hc1 & _ & Hans).
  destruct (groq_answer E _) as [e|[|[content|] rest]];
    try (destruct Hans as [-> _]; done).
  destruct Hans as (pid & Hpid & ->). by exists (strip content), prompt, pid, w1.
Qed.

Lemma review_url_follows_lookup_witness :
  exists review prompt w1 w',
    get_google_place_id env_place_found w1 = (Ok (JStr "ChIJ123"), w')
    /\ generate_review env_place_found a_request a_world
       = (Ok (Response 200
                (review_body env_place_found review prompt (JStr "ChIJ123"))),
          w')
    /\ google_review_url env_place_found (JStr "ChIJ123")
       = DEEP_LINK +:+ "ChIJ123".
Proof.
  destruct (review_url_follows_lookup env_place_found a_world a_request)
    as (Hdeep & _ & _ & _ & _ & _ & _ & _ & _ & _ & _ & _ & _
        & resp & w' & Hrun & Hok).
  assert (Hstatus : status resp = 200).
  { generalize Hrun. vm_compute. by intros [= <- _]. }
  destruct (Hok Hstatus) as (review & prompt & pid & w1 & _ & Hpid & Hresp).
  assert (Hid : pid = JStr "ChIJ123").
  { generalize Hrun. rewrite Hresp. vm_compute. by intros [= _ _ -> _]. }
  exists review, prompt, w1, w'. rewrite <- Hid.
  split; [done|]. split; [by rewrite Hrun, Hresp|].
  rewrite Hid. by apply (Hdeep (JStr "ChIJ123")).
Defined.

(** C9. [GET /api/keywords] answers with the same keyword data whenever it
    is called: the fixed three lists with their entries, weights and order,
    in every state of the process, and so after any requests served in
    between.  Equal data is written to equal bytes by any serialiser. *)
Theorem get_keywords_idempotent (E : env) (w : world) (rs : list request) :
  (handle E GetKeywords w).1 = Ok (Response 200 KEYWORDS_JSON)
  /\ (handle E GetKeywords (serve E rs (handle E GetKeywords w).2)).1
     = (handle E GetKeywords w).1
  /\ forall dumps : json -> string,
       (fun r => match r with Ok resp => dumps (body resp) | _ => "" end)
         (handle E GetKeywords (serve E rs (handle E GetKeywords w).2)).1
       = dumps KEYWORDS_JSON.
Proof.
  assert (H : forall w0, (handle E GetKeywords w0).1
                         = Ok (Response 200 KEYWORDS_JSON)).
  { intros w0. cbn [handle]. by destruct (get_keywords_spec w0) as [w' ->]. }
  split; [apply H|]. split; [by rewrite !H|].
  intros dumps. by rewrite H.
Qed.

(** * Further properties of the sampler and the prompt composer *)

Lemma last_accumulate_from xs : forall acc,
  xs <> [] ->
  last (accumulate_from acc xs) = Some (acc + foldr Z.add 0 xs)%Z.
Proof.
  induction xs as [|x xs IH]; intros acc Hne; [done|].
  destruct xs as [|y xs].
  - cbn. f_equal. lia.
  - cbn [accumulate_from foldr] in *.
    rewrite last_cons, (IH (acc + x)%Z) by done.
    cbn [foldr]. f_equal. lia.
Qed.

Lemma total_weight_foldr ks : total_weight ks = foldr Z.add 0%Z (map weight ks).
Proof. induction ks as [|e ks IH]; cbn; [done | by rewrite <- IH]. Qed.

Lemma last_accumulate_weights ks :
  ks <> [] -> last (accumulate (map weight ks)) = Some (total_weight ks).
Proof.
  intros Hne. unfold accumulate.
  rewrite last_accumulate_from by (by destruct ks).
  by rewrite total_weight_foldr.
Qed.

(** X1. On a table that is not empty and whose weights have a positive
    total (within the floats), [select_weighted_seo] returns exactly
    [count] words, each of them a word of the table, for every [count] --
    also one beyond the size of the table -- and whatever is drawn; it
    changes no list object and calls no collaborator. *)
Theorem select_weighted_seo_returns_count_words
    (w : world) (l : loc) (ks : list seo_entry) (count : nat) :
  seos w !! l = Some ks -> ks <> [] ->
  (0 < total_weight ks)%Z -> float_overflow (total_weight ks) = false ->
  exists res w',
    select_weighted_seo l count w = (Ok res, w')
    /\ length res = count
    /\ (forall x, x ∈ res -> x ∈ map word ks)
    /\ strs w' = strs w /\ seos w' = seos w /\ calls w' = calls w.
Proof.
  intros Hl Hne Hpos Hov.
  destruct (select_weighted_seo_cases l count w)
    as (r & w' & Hrun & Hs & Hseo & Hc & Hr).
  rewrite Hl in Hr. cbn [default from_option id] in Hr.
  destruct r as [res|e|]; [| |done].
  - exists res, w'. by destruct Hr.
  - exfalso. apply Hr. exists (total_weight ks).
    by rewrite last_accumulate_weights.
Qed.

Lemma select_weighted_seo_returns_count_words_witness :
  exists res w',
    select_weighted_seo 0 25 (World [] [SEO_KEYWORDS] [3; 1; 4; 1; 5] [])
    = (Ok res, w')
    /\ length res = 25
    /\ (forall x, x ∈ res -> x ∈ map word SEO_KEYWORDS)
    /\ strs w' = [] /\ seos w' = [SEO_KEYWORDS] /\ calls w' = [].
Proof.
  apply (select_weighted_seo_returns_count_words
           (World [] [SEO_KEYWORDS] [3; 1; 4; 1; 5] []) 0 SEO_KEYWORDS 25);
    [reflexivity | discriminate | reflexivity | reflexivity].
Defined.

Lemma select_weighted_seo_raises w l ks count e :
  seos w !! l = Some ks -> seo_error ks = Some e ->
  select_weighted_seo l count w = (Raise e, w).
Proof.
  intros Hl He.
  assert (Hrun : select_weighted_seo l count w
                 = choices (map word ks) (map weight ks) count w).
  { unfold select_weighted_seo.
    by rewrite (bind_ok (read_seo_list l) _ w ks w)
      by (unfold read_seo_list; by rewrite Hl). }
  rewrite Hrun. destruct (decide (ks = [])) as [->|Hne].
  { by injection He as <-. }
  unfold choices.
  rewrite decide_True
    by (unfold accumulate; by rewrite length_accumulate_from, !length_map).
  rewrite (last_accumulate_weights ks Hne).
  unfold seo_error in He. destruct ks as [|k ks]; [done|].
  destruct (float_overflow _); [by injection He as <-|].
  destruct (_ <=? _)%Z; [by injection He as <- | done].
Qed.

(** X2. On a table that is not empty, [select_weighted_seo] raises a
    [ValueError] when the weights do not have a positive total, and an
    [OverflowError] when the total is too large for a float; in both cases
    nothing has been drawn and the state is as it was. *)
Theorem select_weighted_seo_rejects_total
    (w : world) (l : loc) (ks : list seo_entry) (count : nat) :
  seos w !! l = Some ks -> ks <> [] ->
  (float_overflow (total_weight ks) = false -> (total_weight ks <= 0)%Z ->
   select_weighted_seo l count w
   = (Raise (Exn ValueError "Total of weights must be greater than zero"), w))
  /\ (float_overflow (total_weight ks) = true ->
      select_weighted_seo l count w
      = (Raise (Exn OverflowError "int too large to convert to float"), w)).
Proof.
  intros Hl Hne. split.
  - intros Hov Hle. apply (select_weighted_seo_raises w l ks); [done|].
    unfold seo_error. destruct ks; [done|]. rewrite Hov.
    by destruct (Z.leb_spec (total_weight (s :: ks)) 0); [|lia].
  - intros Hov. apply (select_weighted_seo_raises w l ks); [done|].
    unfold seo_error. destruct ks; [done|]. by rewrite Hov.
Qed.

Lemma select_weighted_seo_rejects_total_witness :
  let w := World [] [[SeoEntry "dal pakwan" 0; SeoEntry "snacks" 0]] [3; 1] [] in
  select_weighted_seo 0 2 w
  = (Raise (Exn ValueError "Total of weights must be greater than zero"), w).
Proof.
  apply (select_weighted_seo_rejects_total
           (World [] [[SeoEntry "dal pakwan" 0; SeoEntry "snacks" 0]] [3; 1] [])
           0 [SeoEntry "dal pakwan" 0; SeoEntry "snacks" 0] 2);
    [reflexivity | discriminate | reflexivity | vm_compute; discriminate].
Defined.

(** X3. On any table with between 2 and 21 backend phrases and an SEO
    list that [select_weighted_seo] accepts, [generate_prompt] returns,
    whatever is drawn.  The prompt is the template around the comma join
    of a list that is a permutation of the caller's keywords followed by
    two backend phrases and two SEO words: every keyword is there as often
    as the caller gave it, and exactly four are added.  No collaborator is
    called. *)
Theorem generate_prompt_composes
    (w : world) (u : loc) (kd : keyword_table)
    (bk : list string) (sk : list seo_entry) :
  u < length (strs w) ->
  strs w !! backend_keywords kd = Some bk ->
  seos w !! seo_keywords kd = Some sk ->
  2 <= length bk -> length bk <= 21 ->
  seo_error sk = None ->
  exists p w' all b s,
    generate_prompt u kd w = (Ok p, w')
    /\ p = prompt_text all
    /\ all ≡ₚ items u w ++ b ++ s
    /\ length all = length (items u w) + 4
    /\ length b = 2 /\ (forall x, x ∈ b -> x ∈ bk) /\ (NoDup bk -> NoDup b)
    /\ length s = 2 /\ (forall x, x ∈ s -> x ∈ map word sk)
    /\ calls w' = calls w.
Proof.
  intros Hu Hbk Hsk Hlo Hhi Hseo.
  destruct (generate_prompt_spec u kd w)
    as (r & w' & Hrun & _ & _ & Hc & Hr).
  rewrite (items_lookup _ _ _ Hbk), Hsk in Hr.
  cbn [default from_option id] in Hr.
  destruct r as [p|e|]; [| |lia].
  - destruct Hr as (all & b & s & -> & Hlb & Hbin & Hbnd & Hls & Hsin & Hperm).
    exists (prompt_text all), w', all, b, s.
    specialize (Hperm Hu). repeat split; try done.
    rewrite Hperm, !length_app. lia.
  - exfalso. destruct Hr as [[Hlt _]|[_ Hno]]; [lia|]. apply Hno.
    unfold seo_error in Hseo. destruct sk as [|k sk]; [done|].
    exists (total_weight (k :: sk)).
    rewrite last_accumulate_weights by done.
    destruct (float_overflow _); [done|].
    by destruct (Z.leb_spec (total_weight (k :: sk)) 0); [|].
Qed.

Lemma generate_prompt_composes_witness :
  let w := World [["tasty"; "tasty"]; ["will visit again"; "worth trying"]]
             [[SeoEntry "snacks" 5]] [1; 0; 9] [] in
  exists p w' all b s,
    generate_prompt 0 (KeywordTable 0 1 0) w = (Ok p, w')
    /\ p = prompt_text all
    /\ all ≡ₚ items 0 w ++ b ++ s
    /\ length all = length (items 0 w) + 4
    /\ length b = 2
    /\ (forall x, x ∈ b -> x ∈ ["will visit again"; "worth trying"])
    /\ (NoDup ["will visit again"; "worth trying"] -> NoDup b)
    /\ length s = 2 /\ (forall x, x ∈ s -> x ∈ map word [SeoEntry "snacks" 5])
    /\ calls w' = calls w.
Proof.
  apply (generate_prompt_composes
           (World [["tasty"; "tasty"]; ["will visit again"; "worth trying"]]
              [[SeoEntry "snacks" 5]] [1; 0; 9] [])
           0 (KeywordTable 0 1 0) ["will visit again"; "worth trying"]
           [SeoEntry "snacks" 5]);
    try reflexivity; vm_compute; lia.
Defined.

(** X4. The backend phrases are sampled before the SEO words.  On a table
    with between 2 and 21 backend phrases and an SEO list that
    [select_weighted_seo] turns down, [generate_prompt] raises the
    exception of [select_weighted_seo] after the sample has been taken:
    the pool and the sample are the only new list objects, no combined
    list has been built, and the lists that existed are as they were. *)
Theorem generate_prompt_fails_after_sampling
    (w : world) (u : loc) (kd : keyword_table)
    (bk : list string) (sk : list seo_entry) (e : exn) :
  strs w !! backend_keywords kd = Some bk ->
  seos w !! seo_keywords kd = Some sk ->
  2 <= length bk -> length bk <= 21 ->
  seo_error sk = Some e ->
  exists w' pool b,
    generate_prompt u kd w = (Raise e, w')
    /\ strs w' = strs w ++ [pool; b]
    /\ length b = 2 /\ (forall x, x ∈ b -> x ∈ bk)
    /\ seos w' = seos w /\ calls w' = calls w.
Proof.
  intros Hbk Hsk Hlo Hhi He. unfold generate_prompt.
  assert (Hsample : exists pool b t,
             sample (backend_keywords kd) 2 w
             = (Ok (S (length (strs w))),
                set_tape t (set_strs (strs w ++ [pool; b]) w))
             /\ length b = 2 /\ (forall x, x ∈ b -> x ∈ bk)).
  { unfold sample.
    rewrite (bind_ok (read_list (backend_keywords kd)) _ w bk w)
      by (unfold read_list; by rewrite (items_lookup _ _ _ Hbk)).
    rewrite decide_True by lia.
    rewrite decide_True by (change (setsize 2) with 21; lia).
    set (w1 := set_strs (strs w ++ [bk]) w).
    rewrite (bind_ok (new_list bk) _ w (length (strs w)) w1 eq_refl).
    destruct (sample_pool_spec (length (strs w)) (length bk) 2 0 w1 bk)
      as (res & xs' & w2 & Hrun & Hs & Hl & Hp & Hseo & Hc);
      [subst w1; cbn; by apply list_lookup_middle | lia | lia |].
    rewrite (bind_ok _ _ _ _ _ Hrun).
    assert (H2 : strs w2 = strs w ++ [xs']).
    { rewrite Hs. subst w1; cbn.
      by rewrite (insert_app_r_alt _ _ (length (strs w))), Nat.sub_diag by lia. }
    rewrite Nat.sub_0_r in Hp.
    assert (Hp' : res ++ take (length bk - 2) xs' ≡ₚ bk)
      by (by rewrite Hp, firstn_all).
    exists xs', res, (tape w2). split.
    - unfold new_list. rewrite H2, length_app. cbn [length].
      replace (length (strs w) + 1) with (S (length (strs w))) by lia.
      f_equal. destruct w2 as [h2 s2 t2 c2]. cbn in *. subst.
      unfold set_tape, set_strs. cbn. by rewrite <- app_assoc.
    - split.
      + apply Permutation_length in Hp'.
        rewrite length_app, length_take in Hp'. lia.
      + intros x Hx. rewrite <- Hp'. apply elem_of_app. by left. }
  destruct Hsample as (pool & b & t & Hrun & Hlb & Hin).
  rewrite (bind_ok _ _ _ _ _ Hrun).
  set (w1 := set_tape t _).
  rewrite (bind_raise _ _ w1 e w1
             (select_weighted_seo_raises w1 (seo_keywords kd) sk 2 e Hsk He)).
  by exists w1, pool, b.
Qed.

Lemma generate_prompt_fails_after_sampling_witness :
  let w := World [["tasty"]; ["will visit again"; "worth trying"]] [[]] [1; 0] [] in
  exists w' pool b,
    generate_prompt 0 (KeywordTable 0 1 0) w
    = (Raise (Exn IndexError "list index out of range"), w')
    /\ strs w' = strs w ++ [pool; b]
    /\ length b = 2
    /\ (forall x, x ∈ b -> x ∈ ["will visit again"; "worth trying"])
    /\ seos w' = seos w /\ calls w' = calls w.
Proof.
  apply (generate_prompt_fails_after_sampling
           (World [["tasty"]; ["will visit again"; "worth trying"]] [[]] [1; 0] [])
           0 (KeywordTable 0 1 0) ["will visit again"; "worth trying"] []);
    try reflexivity; vm_compute; lia.
Defined.

(** * Further properties of the place lookup and the handlers *)

(** X5. When a key is configured and the places service answers with
    status ["OK"] and a list of candidates whose first is an object with a
    [place_id], the lookup returns that [place_id], whatever else the
    answer holds (the other candidates, the other fields).  It has made
    one call, with the name and the address of the restaurant as query,
    and has changed nothing else. *)
Theorem get_google_place_id_first_candidate
    (E : env) (w : world) (key : string) (data pid : json) :
  GOOGLE_PLACES_API_KEY E = Some key -> key <> "" ->
  places_answer E (places_call key :: calls w) = Parsed data ->
  names_place data pid ->
  get_google_place_id E w
  = (Ok pid, set_calls (places_call key :: calls w) w).
Proof.
  intros Hkey Hne Hans Hname.
  destruct (get_google_place_id_spec E w)
    as (v & w' & Hrun & Hs & Hseo & Ht & Hv).
  rewrite Hkey in Hv.
  destruct (String.eqb_spec key "") as [|_]; [done|].
  rewrite Hans in Hv. destruct Hv as (Hc & Hsome & _).
  rewrite Hrun, (Hsome pid Hname). f_equal.
  destruct w, w'. cbn in *. by subst.
Qed.

Lemma get_google_place_id_first_candidate_witness :
  get_google_place_id env_place_found a_world
  = (Ok (JStr "ChIJ123"),
     set_calls (places_call "key" :: calls a_world) a_world).
Proof.
  apply (get_google_place_id_first_candidate env_place_found a_world "key"
           (JObject
              [ ("candidates", JList [JObject [("place_id", JStr "ChIJ123")]]);
                ("status", JStr "OK") ])
           (JStr "ChIJ123")); [reflexivity | discriminate | reflexivity |].
  by eexists _, _, _.
Defined.

(** X6. When keywords are given and the text-generation service fails,
    the answer is a 500 whose message is ["Review generation failed: "]
    followed by the message of the failure: the exception of the service,
    the [IndexError] of an answer without choices, or the [AttributeError]
    of a first choice without content.  The generation call is the only
    call made: the places service is not asked. *)
Theorem generate_review_generation_failure
    (E : env) (w : world) (req : request_body) (k : string) (ks : list string) :
  sends_keywords req (k :: ks) ->
  exists prompt resp w',
    generate_review E req w = (Ok resp, w')
    /\ (forall e,
          groq_answer E (groq_call prompt :: calls w) = GroqRaises e ->
          resp = error_response e
          /\ calls w' = groq_call prompt :: calls w)
    /\ (groq_answer E (groq_call prompt :: calls w) = GroqReturns [] ->
        resp = error_response (Exn IndexError "list index out of range")
        /\ calls w' = groq_call prompt :: calls w)
    /\ (forall rest,
          groq_answer E (groq_call prompt :: calls w)
          = GroqReturns (None :: rest) ->
          resp = error_response
                   (Exn AttributeError
                      "'NoneType' object has no attribute 'strip'")
          /\ calls w' = groq_call prompt :: calls w).
Proof.
  intros Hreq.
  destruct (generate_review_keywords E req w k ks Hreq)
    as (resp & w' & Hrun & prompt & w1 & Hc1 & _ & Hans).
  exists prompt, resp, w'. split; [done|].
  repeat split; intros; simplify_eq;
    match goal with H : groq_answer _ _ = _ |- _ => rewrite H in Hans end;
    destruct Hans as [-> ->]; done.
Qed.

Lemma generate_review_generation_failure_witness :
  exists prompt w',
    generate_review env_generation_down a_request a_world
    = (Ok (error_response (Exn CollaboratorError "rate limit reached")), w')
    /\ calls w' = groq_call prompt :: calls a_world.
Proof.
  destruct (generate_review_generation_failure env_generation_down a_world
              a_request "tasty" ["fresh"] (ex_intro _ _ (conj eq_refl eq_refl)))
    as (prompt & resp & w' & Hrun & Hraise & _).
  destruct (Hraise (Exn CollaboratorError "rate limit reached") eq_refl)
    as [Hresp Hc].
  exists prompt, w'. rewrite Hrun, Hresp. split; [reflexivity | exact Hc].
Defined.

(** X7. When keywords are given, the prompt sent to the text-generation
    service contains every one of them.  When the service returns a text,
    the answer is a 200 whose [review] is the content of the first choice
    without the white space around it (the other choices are not read) and
    whose [prompt] is the prompt that was sent; the generation call comes
    first, followed by at most one call to the places service. *)
Theorem generate_review_success
    (E : env) (w : world) (req : request_body) (k : string) (ks : list string) :
  sends_keywords req (k :: ks) ->
  exists prompt resp w',
    generate_review E req w = (Ok resp, w')
    /\ (forall k', k' ∈ k :: ks -> contains prompt k')
    /\ forall content rest,
         groq_answer E (groq_call prompt :: calls w)
         = GroqReturns (Some content :: rest) ->
         (exists pid,
             resp = Response 200 (review_body E (strip content) prompt pid))
         /\ (calls w' = groq_call prompt :: calls w
             \/ exists key,
                  calls w' = places_call key :: groq_call prompt :: calls w).
Proof.
  intros Hreq.
  destruct (generate_review_keywords E req w k ks Hreq)
    as (resp & w' & Hrun & prompt & w1 & Hc1 & Hcontains & Hans).
  exists prompt, resp, w'. split; [done|]. split; [done|].
  intros content rest Hgroq. rewrite Hgroq in Hans.
  destruct Hans as (pid & Hpid & ->). split; [by exists pid|].
  destruct (get_google_place_id_spec E w1)
    as (v & w'' & Hrun' & _ & _ & _ & Hv).
  rewrite Hpid in Hrun'. injection Hrun' as <- <-.
  rewrite <- Hc1.
  destruct (GOOGLE_PLACES_API_KEY E) as [key|]; [|left; by destruct Hv].
  destruct (String.eqb key ""); [left; by destruct Hv|].
  right. exists key. by destruct Hv.
Qed.

Lemma generate_review_success_witness :
  exists prompt pid w',
    generate_review env_place_found a_request a_world
    = (Ok (Response 200
             (review_body env_place_found "Lovely dal pakwan." prompt pid)), w')
    /\ contains prompt "tasty" /\ contains prompt "fresh".
Proof.
  destruct (generate_review_success env_place_found a_world a_request
              "tasty" ["fresh"] (ex_intro _ _ (conj eq_refl eq_refl)))
    as (prompt & resp & w' & Hrun & Hcontains & Hok).
  destruct (Hok " Lovely dal pakwan. " [] eq_refl) as [[pid Hresp] _].
  exists prompt, pid, w'. rewrite Hrun, Hresp. split; [reflexivity|].
  split; apply Hcontains; [by left | by right; left].
Defined.


(** ** Code that only adds to the state *)

Lemma grows_ret {A} (a : A) : grows (ret a).
Proof.
  intros w r w' [= <- <-].
  split; [exists []; by rewrite app_nil_r|]. split; [exists []; by rewrite app_nil_r|].
  by exists [].
Qed.

Lemma grows_raise {A} e : grows (@raise A e).
Proof.
  intros w r w' [= <- <-].
  split; [exists []; by rewrite app_nil_r|]. split; [exists []; by rewrite app_nil_r|].
  by exists [].
Qed.

Lemma grows_tape_only {A} (m : M A) : tape_only m -> grows m.
Proof.
  intros Hm w r w' Hrun. destruct (Hm _ _ _ Hrun) as (-> & -> & ->).
  split; [exists []; by rewrite app_nil_r|]. split; [exists []; by rewrite app_nil_r|].
  by exists [].
Qed.

Lemma grows_trans w1 w2 w3 :
  ((exists e, strs w2 = strs w1 ++ e) /\ (exists e, seos w2 = seos w1 ++ e)
   /\ (exists l, calls w2 = l ++ calls w1)) ->
  ((exists e, strs w3 = strs w2 ++ e) /\ (exists e, seos w3 = seos w2 ++ e)
   /\ (exists l, calls w3 = l ++ calls w2)) ->
  (exists e, strs w3 = strs w1 ++ e) /\ (exists e, seos w3 = seos w1 ++ e)
  /\ (exists l, calls w3 = l ++ calls w1).
Proof.
  intros ([e1 H1] & [e2 H2] & [l3 H3]) ([e4 H4] & [e5 H5] & [l6 H6]).
  split; [exists (e1 ++ e4); by rewrite H4, H1, app_assoc|].
  split; [exists (e2 ++ e5); by rewrite H5, H2, app_assoc|].
  exists (l6 ++ l3). by rewrite H6, H3, app_assoc.
Qed.

Lemma grows_bind {A B} (m : M A) (f : A -> M B) :
  grows m -> (forall a, grows (f a)) -> grows (bind m f).
Proof.
  intros Hm Hf w r w'. unfold bind.
  destruct (m w) as [[a|e|] w1] eqn:E; intros H.
  - eapply grows_trans; [by eapply Hm | by eapply Hf].
  - injection H as <- <-. by eapply Hm.
  - injection H as <- <-. by eapply Hm.
Qed.

Lemma grows_try_except {A} (m : M A) (h : exn -> M A) :
  grows m -> (forall e, grows (h e)) -> grows (try_except m h).
Proof.
  intros Hm Hh w r w'. unfold try_except.
  destruct (m w) as [[a|e|] w1] eqn:E; intros H.
  - injection H as <- <-. by eapply Hm.
  - eapply grows_trans; [by eapply Hm | by eapply Hh].
  - injection H as <- <-. by eapply Hm.
Qed.

Lemma grows_new_list xs : grows (new_list xs).
Proof.
  intros w r w' [= <- <-]. cbn.
  split; [by exists [xs]|]. split; [exists []; by rewrite app_nil_r|]. by exists [].
Qed.

Lemma grows_new_seo_list xs : grows (new_seo_list xs).
Proof.
  intros w r w' [= <- <-]. cbn.
  split; [exists []; by rewrite app_nil_r|]. split; [by exists [xs]|]. by exists [].
Qed.

Lemma grows_log_call c : grows (log_call c).
Proof.
  intros w r w' [= <- <-]. cbn.
  split; [exists []; by rewrite app_nil_r|]. split; [exists []; by rewrite app_nil_r|].
  by exists [c].
Qed.

Lemma grows_load_keywords : grows load_keywords.
Proof.
  repeat (apply grows_bind; [first [apply grows_new_list | apply grows_new_seo_list]|];
          intros ?).
  apply grows_ret.
Qed.

Lemma grows_generate_prompt u kd : grows (generate_prompt u kd).
Proof.
  intros w r w' Hrun.
  destruct (generate_prompt_spec u kd w) as (r' & w'' & Hrun' & Hs & Hseo & Hc & _).
  rewrite Hrun in Hrun'. injection Hrun' as <- <-.
  split; [done|]. split; [exists []; by rewrite app_nil_r|].
  exists []. by rewrite Hc.
Qed.

Lemma grows_get_google_place_id E : grows (get_google_place_id E).
Proof.
  intros w r w' Hrun.
  destruct (get_google_place_id_spec E w) as (v & w'' & Hrun' & Hs & Hseo & _).
  rewrite Hrun in Hrun'. injection Hrun' as -> <-.
  split; [exists []; by rewrite app_nil_r|]. split; [exists []; by rewrite app_nil_r|].
  by apply (get_google_place_id_calls E w v w').
Qed.

Lemma grows_chat_completions_create E prompt :
  grows (chat_completions_create E prompt).
Proof.
  apply grows_bind; [apply grows_log_call|]. intros history.
  destruct (groq_answer E history); [apply grows_raise | apply grows_ret].
Qed.

Lemma grows_generate_prompt_other v kd : grows (generate_prompt_other v kd).
Proof.
  intros w r w' Hrun.
  destruct (generate_prompt_other_spec v kd w)
    as (r' & w'' & Hrun' & Hs & Hseo & Hc & _).
  rewrite Hrun in Hrun'. injection Hrun' as <- <-.
  split; [done|]. split; [exists []; by rewrite app_nil_r|].
  exists []. by rewrite Hc.
Qed.

Lemma grows_get_selected data : grows (get_selected data).
Proof.
  destruct data as [| | | | |d]; try apply grows_raise.
  cbn [get_selected].
  destruct (assoc "selectedKeywords" d) as [[| | | |its|]|];
    try (apply grows_bind; [apply grows_new_list | intros; apply grows_ret]).
  destruct (as_strings its).
  - apply grows_bind; [apply grows_new_list|]. intros ?.
    apply grows_bind; [apply grows_new_list | intros; apply grows_ret].
  - apply grows_bind; [apply grows_new_list | intros; apply grows_ret].
Qed.

Lemma tape_only_truth_of selected : tape_only (truth_of selected).
Proof.
  destruct selected as [l|v]; [|apply tape_only_ret].
  apply tape_only_bind; [by intros w r w' [= <- <-] | intros; apply tape_only_ret].
Qed.

Lemma grows_generate_review E req : grows (generate_review E req).
Proof.
  apply grows_try_except; [|intros; apply grows_ret].
  apply grows_bind.
  { destruct req; [apply grows_raise | apply grows_ret]. }
  intros data. apply grows_bind; [apply grows_get_selected|]. intros selected.
  apply grows_bind; [apply grows_tape_only, tape_only_truth_of|].
  intros [|]; [|apply grows_ret].
  apply grows_bind; [apply grows_load_keywords|]. intros kd.
  apply grows_bind;
    [destruct selected;
     [apply grows_generate_prompt | apply grows_generate_prompt_other]|].
  intros prompt.
  apply grows_bind; [apply grows_chat_completions_create|]. intros choices.
  apply grows_bind; [apply grows_tape_only, tape_only_index|]. intros choice.
  apply grows_bind; [destruct choice; [apply grows_ret | apply grows_raise]|].
  intros review.
  apply grows_bind; [apply grows_get_google_place_id | intros; apply grows_ret].
Qed.

Lemma grows_handle E r : grows (handle E r).
Proof.
  destruct r as [req| | |]; cbn [handle].
  - apply grows_generate_review.
  - apply grows_bind; [apply grows_get_google_place_id | intros; apply grows_ret].
  - apply grows_bind; [apply grows_load_keywords|]. intros kd.
    apply grows_bind; [|intros; apply grows_ret].
    apply grows_tape_only.
    repeat (apply tape_only_bind;
            [by intros w r w' [= <- <-] | intros ?]).
    apply tape_only_ret.
  - apply grows_ret.
Qed.

(** X9. Serving requests only adds to the state of the process: whatever
    the requests and whatever the collaborators answer, every list object
    that existed before is there afterwards with the same items, and every
    call logged before is still in the log, below the new ones.  No
    request changes what an earlier one has built. *)
Theorem serve_only_adds (E : env) (rs : list request) (w : world) :
  take (length (strs w)) (strs (serve E rs w)) = strs w
  /\ take (length (seos w)) (seos (serve E rs w)) = seos w
  /\ exists later, calls (serve E rs w) = later ++ calls w.
Proof.
  assert (H : (exists e, strs (serve E rs w) = strs w ++ e)
              /\ (exists e, seos (serve E rs w) = seos w ++ e)
              /\ (exists l, calls (serve E rs w) = l ++ calls w)).
  { revert w. induction rs as [|r rs IH]; intros w; cbn [serve].
    - split; [exists []; by rewrite app_nil_r|].
      split; [exists []; by rewrite app_nil_r|]. by exists [].
    - eapply grows_trans; [|apply IH].
      destruct (handle E r w) as [res w1] eqn:Hrun.
      by apply (grows_handle E r w res w1). }
  destruct H as ([e1 ->] & [e2 ->] & Hc).
  by rewrite !take_app_length.
Qed.

(** ** Which collaborator is called *)

Lemma logs_only_tape_only P {A} (m : M A) : tape_only m -> logs_only P m.
Proof.
  intros Hm w r w' Hrun. destruct (Hm _ _ _ Hrun) as (_ & _ & ->).
  by exists [].
Qed.

Lemma logs_only_ret P {A} (a : A) : logs_only P (ret a).
Proof. apply logs_only_tape_only, tape_only_ret. Qed.

Lemma logs_only_raise P {A} e : logs_only P (@raise A e).
Proof. apply logs_only_tape_only, tape_only_raise. Qed.

Lemma logs_only_bind P {A B} (m : M A) (f : A -> M B) :
  logs_only P m -> (forall a, logs_only P (f a)) -> logs_only P (bind m f).
Proof.
  intros Hm Hf w r w'. unfold bind.
  destruct (m w) as [[a|e|] w1] eqn:E; intros H.
  - destruct (Hm _ _ _ E) as (l1 & H1 & HP1).
    destruct (Hf _ _ _ _ H) as (l2 & H2 & HP2).
    exists (l2 ++ l1). split; [by rewrite H2, H1, app_assoc|].
    by apply Forall_app.
  - injection H as <- <-. by eapply Hm.
  - injection H as <- <-. by eapply Hm.
Qed.

Lemma logs_only_try_except P {A} (m : M A) (h : exn -> M A) :
  logs_only P m -> (forall e, logs_only P (h e)) -> logs_only P (try_except m h).
Proof.
  intros Hm Hh w r w'. unfold try_except.
  destruct (m w) as [[a|e|] w1] eqn:E; intros H.
  - injection H as <- <-. by eapply Hm.
  - destruct (Hm _ _ _ E) as (l1 & H1 & HP1).
    destruct (Hh _ _ _ _ H) as (l2 & H2 & HP2).
    exists (l2 ++ l1). split; [by rewrite H2, H1, app_assoc|].
    by apply Forall_app.
  - injection H as <- <-. by eapply Hm.
Qed.

Lemma logs_only_new_list P xs : logs_only P (new_list xs).
Proof. intros w r w' [= <- <-]. by exists []. Qed.

Lemma logs_only_new_seo_list P xs : logs_only P (new_seo_list xs).
Proof. intros w r w' [= <- <-]. by exists []. Qed.

Lemma logs_only_log_call (P : call -> bool) c :
  P c = true -> logs_only P (log_call c).
Proof.
  intros HP w r w' [= <- <-]. exists [c]. split; [done|]. by constructor.
Qed.

Lemma logs_only_load_keywords P : logs_only P load_keywords.
Proof.
  repeat (apply logs_only_bind;
          [first [apply logs_only_new_list | apply logs_only_new_seo_list]|];
          intros ?).
  apply logs_only_ret.
Qed.

Lemma logs_only_generate_prompt P u kd : logs_only P (generate_prompt u kd).
Proof.
  intros w r w' Hrun.
  destruct (generate_prompt_spec u kd w) as (r' & w'' & Hrun' & _ & _ & Hc & _).
  rewrite Hrun in Hrun'. injection Hrun' as <- <-. by exists [].
Qed.

Lemma logs_only_get_google_place_id E :
  logs_only is_places_call (get_google_place_id E).
Proof.
  intros w r w' Hrun.
  destruct (get_google_place_id_spec E w) as (v & w'' & Hrun' & _ & _ & _ & Hv).
  rewrite Hrun in Hrun'. injection Hrun' as -> <-.
  destruct (GOOGLE_PLACES_API_KEY E) as [key|]; [|exists []; by destruct Hv].
  destruct (String.eqb key ""); [exists []; by destruct Hv|].
  exists [places_call key]. split; [by destruct Hv|]. by constructor.
Qed.

Lemma logs_only_get_google_place_id_no_key P E :
  GOOGLE_PLACES_API_KEY E = None \/ GOOGLE_PLACES_API_KEY E = Some "" ->
  logs_only P (get_google_place_id E).
Proof.
  intros Hkey w r w' Hrun. exists [].
  unfold get_google_place_id in Hrun.
  destruct Hkey as [Hkey|Hkey]; rewrite Hkey in Hrun;
    by injection Hrun as <- <-.
Qed.

Lemma logs_only_chat_completions_create (P : call -> bool) E prompt :
  P (groq_call prompt) = true -> logs_only P (chat_completions_create E prompt).
Proof.
  intros HP. apply logs_only_bind; [by apply logs_only_log_call|].
  intros history.
  destruct (groq_answer E history); [apply logs_only_raise | apply logs_only_ret].
Qed.

Lemma logs_only_generate_prompt_other P v kd :
  logs_only P (generate_prompt_other v kd).
Proof.
  intros w r w' Hrun.
  destruct (generate_prompt_other_spec v kd w)
    as (r' & w'' & Hrun' & _ & _ & Hc & _).
  rewrite Hrun in Hrun'. injection Hrun' as <- <-. by exists [].
Qed.

Lemma logs_only_get_selected P data : logs_only P (get_selected data).
Proof.
  destruct data as [| | | | |d]; try apply logs_only_raise.
  cbn [get_selected].
  destruct (assoc "selectedKeywords" d) as [[| | | |its|]|];
    try (apply logs_only_bind;
         [apply logs_only_new_list | intros; apply logs_only_ret]).
  destruct (as_strings its).
  - apply logs_only_bind; [apply logs_only_new_list|]. intros ?.
    apply logs_only_bind;
      [apply logs_only_new_list | intros; apply logs_only_ret].
  - apply logs_only_bind;
      [apply logs_only_new_list | intros; apply logs_only_ret].
Qed.

Lemma logs_only_generate_review (P : call -> bool) E req :
  (forall prompt, P (groq_call prompt) = true) ->
  logs_only P (get_google_place_id E) ->
  logs_only P (generate_review E req).
Proof.
  intros Hgroq Hplaces.
  apply logs_only_try_except; [|intros; apply logs_only_ret].
  apply logs_only_bind.
  { destruct req; [apply logs_only_raise | apply logs_only_ret]. }
  intros data. apply logs_only_bind; [apply logs_only_get_selected|].
  intros selected.
  apply logs_only_bind; [apply logs_only_tape_only, tape_only_truth_of|].
  intros [|]; [|apply logs_only_ret].
  apply logs_only_bind; [apply logs_only_load_keywords|]. intros kd.
  apply logs_only_bind;
    [destruct selected;
     [apply logs_only_generate_prompt | apply logs_only_generate_prompt_other]|].
  intros prompt.
  apply logs_only_bind; [by apply logs_only_chat_completions_create|].
  intros choices.
  apply logs_only_bind; [apply logs_only_tape_only, tape_only_index|].
  intros choice.
  apply logs_only_bind;
    [destruct choice; [apply logs_only_ret | apply logs_only_raise]|].
  intros review.
  apply logs_only_bind; [done | intros; apply logs_only_ret].
Qed.

Lemma logs_only_get_keywords P : logs_only P get_keywords.
Proof.
  apply logs_only_bind; [apply logs_only_load_keywords|]. intros kd.
  apply logs_only_bind; [|intros; apply logs_only_ret].
  apply logs_only_tape_only.
  repeat (apply tape_only_bind; [by intros w r w' [= <- <-] | intros ?]).
  apply tape_only_ret.
Qed.

Lemma logs_only_serve (P : call -> bool) E rs :
  Forall (fun r => logs_only P (handle E r)) rs ->
  forall w, exists later,
    calls (serve E rs w) = later ++ calls w
    /\ Forall (fun c => P c = true) later.
Proof.
  induction 1 as [|r rs Hr _ IH]; intros w; cbn [serve]; [by exists []|].
  destruct (handle E r w) as [res w1] eqn:Hrun. cbn [snd].
  destruct (Hr _ _ _ Hrun) as (l1 & H1 & HP1).
  destruct (IH w1) as (l2 & H2 & HP2).
  exists (l2 ++ l1). split; [by rewrite H2, H1, app_assoc|].
  by apply Forall_app.
Qed.

(** X10. When no key of the places service is configured -- the variable
    is not set or is empty -- no request ever calls the places service:
    after any sequence of requests, the calls added to the log are all
    calls to the text-generation service. *)
Theorem no_key_no_places_call (E : env) (rs : list request) (w : world) :
  GOOGLE_PLACES_API_KEY E = None \/ GOOGLE_PLACES_API_KEY E = Some "" ->
  exists later,
    calls (serve E rs w) = later ++ calls w
    /\ Forall (fun c => is_places_call c = false) later.
Proof.
  intros Hkey.
  destruct (logs_only_serve (fun c => negb (is_places_call c)) E rs) with (w := w)
    as (later & Hc & HP).
  { apply Forall_forall. intros [req| | |] _; cbn [handle].
    - apply logs_only_generate_review; [done|].
      by apply logs_only_get_google_place_id_no_key.
    - apply logs_only_bind; [|intros; apply logs_only_ret].
      by apply logs_only_get_google_place_id_no_key.
    - apply logs_only_get_keywords.
    - apply logs_only_ret. }
  exists later. split; [done|].
  eapply Forall_impl; [exact HP|]. intros c Hc'. by apply negb_true_iff.
Qed.

Lemma no_key_no_places_call_witness :
  exists later,
    calls (serve env_no_key [PostGenerateReview a_request; GetRestaurantInfo]
             a_world)
    = later ++ calls a_world
    /\ Forall (fun c => is_places_call c = false) later.
Proof.
  apply (no_key_no_places_call env_no_key
           [PostGenerateReview a_request; GetRestaurantInfo] a_world).
  left. reflexivity.
Defined.

Lemma keeps_tape_ret {A} (a : A) : keeps_tape (ret a).
Proof. by intros w r w' [= <- <-]. Qed.

Lemma keeps_tape_bind {A B} (m : M A) (f : A -> M B) :
  keeps_tape m -> (forall a, keeps_tape (f a)) -> keeps_tape (bind m f).
Proof.
  intros Hm Hf w r w'. unfold bind.
  destruct (m w) as [[a|e|] w1] eqn:E; intros H.
  - rewrite (Hf _ _ _ _ H). by eapply Hm.
  - injection H as <- <-. by eapply Hm.
  - injection H as <- <-. by eapply Hm.
Qed.

Lemma keeps_tape_get_google_place_id E : keeps_tape (get_google_place_id E).
Proof.
  intros w r w' Hrun.
  destruct (get_google_place_id_spec E w) as (v & w'' & Hrun' & _ & _ & Ht & _).
  rewrite Hrun in Hrun'. by injection Hrun' as -> <-.
Qed.

Lemma keeps_tape_get_keywords : keeps_tape get_keywords.
Proof.
  apply keeps_tape_bind.
  { repeat (apply keeps_tape_bind; [by intros w r w' [= <- <-] | intros ?]).
    apply keeps_tape_ret. }
  intros kd. apply keeps_tape_bind; [|intros; apply keeps_tape_ret].
  repeat (apply keeps_tape_bind; [by intros w r w' [= <- <-] | intros ?]).
  apply keeps_tape_ret.
Qed.

(** X11. Only the review-generation route draws random numbers or calls
    the text-generation service.  After any sequence of requests to the
    other routes the random source is where it was, and the calls added to
    the log are all calls to the places service. *)
Theorem other_routes_draw_nothing (E : env) (rs : list request) (w : world) :
  Forall (fun r => is_review_request r = false) rs ->
  tape (serve E rs w) = tape w
  /\ exists later,
       calls (serve E rs w) = later ++ calls w
       /\ Forall (fun c => is_places_call c = true) later.
Proof.
  intros Hrs. split.
  - revert w. induction Hrs as [|r rs Hr _ IH]; intros w; cbn [serve]; [done|].
    rewrite IH. destruct (handle E r w) as [res w1] eqn:Hrun. cbn [snd].
    destruct r as [req| | |]; [done| | |]; cbn [handle] in Hrun.
    + eapply (keeps_tape_bind (get_google_place_id E)); [| |exact Hrun].
      * apply keeps_tape_get_google_place_id.
      * intros; apply keeps_tape_ret.
    + by eapply keeps_tape_get_keywords.
    + by injection Hrun as <- <-.
  - apply logs_only_serve.
    eapply Forall_impl; [exact Hrs|]. intros [req| | |] Hr; [done| | |];
      cbn [handle].
    + apply logs_only_bind; [|intros; apply logs_only_ret].
      apply logs_only_get_google_place_id.
    + apply logs_only_get_keywords.
    + apply logs_only_ret.
Qed.

Lemma other_routes_draw_nothing_witness :
  tape (serve env_place_found [GetKeywords; GetRestaurantInfo; GetHealth] a_world)
  = tape a_world
  /\ exists later,
       calls (serve env_place_found [GetKeywords; GetRestaurantInfo; GetHealth]
                a_world)
       = later ++ calls a_world
       /\ Forall (fun c => is_places_call c = true) later.
Proof.
  apply (other_routes_draw_nothing env_place_found
           [GetKeywords; GetRestaurantInfo; GetHealth] a_world).
  repeat constructor.
Defined.

Lemma deep_link_is_not_search_url s : DEEP_LINK +:+ s <> SEARCH_URL.
Proof. intros H. vm_compute in H. discriminate. Qed.

(** X12. [GET /api/restaurant-info] always answers 200, with the search
    URL in [google_search_url] whatever the lookup gives.  Its
    [google_review_url] is the same URL exactly when the lookup returned
    nothing that Python takes as true; otherwise it differs from it. *)
Theorem restaurant_info_urls (E : env) (w : world) :
  exists pid w' d,
    get_restaurant_info E w = (Ok (Response 200 (JObject d)), w')
    /\ assoc "place_id" d = Some pid
    /\ assoc "google_search_url" d = Some (JStr SEARCH_URL)
    /\ (assoc "google_review_url" d = assoc "google_search_url" d
        <-> truthy pid = false).
Proof.
  destruct (get_google_place_id_spec E w) as (pid & w' & Hrun & _).
  exists pid, w'. eexists. split.
  { unfold get_restaurant_info. rewrite (bind_ok _ _ _ _ _ Hrun). reflexivity. }
  split; [done|]. split; [done|].
  cbn. unfold google_review_url. destruct (truthy pid).
  - split; [|done]. intros H.
    assert (H' : DEEP_LINK +:+ format_value E pid = SEARCH_URL)
      by (unfold DEEP_LINK; congruence).
    by apply deep_link_is_not_search_url in H'.
  - done.
Qed.

(** X13. Sampling of SEO words is with replacement: when more words are
    asked for than the table has, the result holds some word twice. *)
Theorem select_weighted_seo_repeats_words
    (w : world) (l : loc) (ks : list seo_entry) (count : nat)
    (res : list string) (w' : world) :
  seos w !! l = Some ks -> length ks < count ->
  select_weighted_seo l count w = (Ok res, w') ->
  length res = count /\ ~ NoDup res.
Proof.
  intros Hl Hlt Hrun.
  destruct (select_weighted_seo_cases l count w)
    as (r & w'' & Hrun' & _ & _ & _ & Hr).
  rewrite Hrun in Hrun'. injection Hrun' as <- <-.
  rewrite Hl in Hr. cbn [default from_option id] in Hr.
  destruct Hr as [Hlen Hin]. split; [done|]. intros Hnd.
  assert (Hsub : res ⊆+ map word ks) by (by apply NoDup_submseteq).
  apply submseteq_length in Hsub. rewrite length_map in Hsub. lia.
Qed.

Lemma select_weighted_seo_repeats_words_witness :
  length ["snacks"; "snacks"] = 2 /\ ~ NoDup ["snacks"; "snacks"].
Proof.
  apply (select_weighted_seo_repeats_words
           (World [] [[SeoEntry "snacks" 5]] [3; 1] []) 0
           [SeoEntry "snacks" 5] 2 ["snacks"; "snacks"]
           (World [] [[SeoEntry "snacks" 5]] [] []));
    [reflexivity | vm_compute; lia | reflexivity].
Defined.

(** * Further properties of [quote] *)

Lemma string_forall_app P a b :
  string_forall P (a +:+ b) = string_forall P a && string_forall P b.
Proof.
  induction a as [|c a IH]; [done|].
  change (String c a +:+ b) with (String c (a +:+ b)).
  cbn [string_forall]. by rewrite IH, andb_assoc.
Qed.

Lemma quote_app a b : quote (a +:+ b) = quote a +:+ quote b.
Proof.
  induction a as [|c a IH]; [done|].
  change (String c a +:+ b) with (String c (a +:+ b)).
  cbn [quote]. by rewrite IH, append_assoc.
Qed.

Lemma hex_digit_safe n : n < 16 -> is_safe (hex_digit n) = true.
Proof.
  intros Hn. do 16 (destruct n as [|n]; [done|]). lia.
Qed.

Lemma hex_digit_inj a b : a < 16 -> b < 16 -> hex_digit a = hex_digit b -> a = b.
Proof.
  intros Ha Hb H. apply (f_equal nat_of_ascii) in H. unfold hex_digit in H.
  rewrite !nat_ascii_embedding in H by (repeat case_decide; lia).
  repeat case_decide; lia.
Qed.

(** X14. [quote], by which the handlers escape the name and the address
    of the restaurant: the result holds only letters, digits, [_.-~/] and
    the percent sign; a string of such safe characters is left as it is;
    quoting goes through concatenation; and different strings are quoted
    to different strings. *)
Theorem quote_properties (a b : string) :
  string_forall quoted_char (quote a) = true
  /\ quote (a +:+ b) = quote a +:+ quote b
  /\ (string_forall is_safe a = true -> quote a = a)
  /\ (quote a = quote b -> a = b).
Proof.
  split.
  { induction a as [|c a IH]; [done|]. cbn [quote].
    rewrite string_forall_app, IH, andb_true_r.
    destruct (is_safe c) eqn:Hc; cbn [string_forall]; unfold quoted_char.
    - by rewrite Hc.
    - pose proof (nat_ascii_bounded c) as Hb.
      rewrite !hex_digit_safe; [done| |].
      + apply Nat.mod_upper_bound. lia.
      + apply Nat.Div0.div_lt_upper_bound. lia. }
  split; [apply quote_app|]. split.
  { induction a as [|c a IH]; [done|]. cbn [string_forall quote].
    intros [Hc Ha]%andb_true_iff. by rewrite Hc, IH. }
  revert b. induction a as [|c1 a IH]; intros [|c2 b]; cbn [quote].
  - done.
  - by destruct (is_safe c2).
  - by destruct (is_safe c1).
  - pose proof (nat_ascii_bounded c1) as Hb1.
    pose proof (nat_ascii_bounded c2) as Hb2.
    destruct (is_safe c1) eqn:H1, (is_safe c2) eqn:H2; intros H.
    + injection H as -> H. f_equal. by apply IH.
    + injection H as -> _. by vm_compute in H1.
    + injection H as <- _. by vm_compute in H2.
    + pose proof (Nat.div_mod (nat_of_ascii c1) 16 ltac:(lia)) as Hd1.
      pose proof (Nat.div_mod (nat_of_ascii c2) 16 ltac:(lia)) as Hd2.
      pose proof (Nat.mod_upper_bound (nat_of_ascii c1) 16 ltac:(lia)) as Hm1.
      pose proof (Nat.mod_upper_bound (nat_of_ascii c2) 16 ltac:(lia)) as Hm2.
      assert (Hq1 : nat_of_ascii c1 / 16 < 16)
        by (apply Nat.Div0.div_lt_upper_bound; lia).
      assert (Hq2 : nat_of_ascii c2 / 16 < 16)
        by (apply Nat.Div0.div_lt_upper_bound; lia).
      revert H Hd1 Hd2 Hm1 Hm2 Hq1 Hq2.
      generalize (nat_of_ascii c1 / 16) (nat_of_ascii c1 mod 16)
                 (nat_of_ascii c2 / 16) (nat_of_ascii c2 mod 16).
      intros h1 l1 h2 l2 H Hd1 Hd2 Hm1 Hm2 Hq1 Hq2.
      injection H as Hhi Hlo Hr.
      apply hex_digit_inj in Hhi; [|done|done].
      apply hex_digit_inj in Hlo; [|done|done].
      rewrite (IH _ Hr). f_equal.
      rewrite <- (ascii_nat_embedding c1), <- (ascii_nat_embedding c2).
      f_equal. lia.
Qed.

(** * Further properties of [sample] *)

(** Items read at distinct positions of a list are a part of it, counted
    with repeats. *)
Lemma picked_submseteq (res : list string) : forall (pop : list string) js,
  NoDup js ->
  Forall2 (fun j x => pop !! j = Some x) js res ->
  res ⊆+ pop.
Proof.
  induction res as [|x res IH]; intros pop js Hnd Hall.
  { apply submseteq_nil_l. }
  destruct js as [|j js]; [by apply Forall2_nil_cons_inv in Hall|].
  apply Forall2_cons_1 in Hall as [Hx Hall].
  apply NoDup_cons in Hnd as [Hj Hnd].
  rewrite (delete_Permutation pop j x Hx). apply submseteq_skip.
  apply (IH (delete j pop)
           ((fun j' => if decide (j' < j) then j' else j' - 1) <$> js)).
  - apply NoDup_fmap_2_strong; [|done].
    intros a b Ha Hb Hab.
    assert (a <> j) by (by intros ->). assert (b <> j) by (by intros ->).
    repeat case_decide; lia.
  - apply Forall2_same_length_lookup. split.
    { rewrite length_fmap. by eapply Forall2_length. }
    intros i j'' y Hj'' Hy.
    apply list_lookup_fmap_Some in Hj'' as (j' & -> & Hj').
    pose proof (Forall2_lookup_lr _ _ _ _ _ _ Hall Hj' Hy) as Hpop.
    cbn in Hpop.
    assert (j' <> j).
    { intros ->. apply Hj. by eapply list_elem_of_lookup_2. }
    case_decide.
    + by rewrite list_lookup_delete_lt.
    + rewrite list_lookup_delete_ge by lia. by replace (S (j' - 1)) with j' by lia.
Qed.

(** X15. Backend phrases are sampled without replacement, by position: on
    a list of at least two phrases the two that [sample] returns are a
    part of the list counted with repeats, so a phrase comes twice only if
    the list holds it twice.  [sample] does not raise there, and it may
    fail to return only on a list of more than 21 phrases. *)
Theorem sample_is_part_of_population (w : world) (p : loc) (pop : list string) :
  strs w !! p = Some pop -> 2 <= length pop ->
  match sample p 2 w with
  | (Ok r, w') => exists a b, strs w' !! r = Some [a; b] /\ [a; b] ⊆+ pop
  | (Raise _, _) => False
  | (Diverge, _) => 21 < length pop
  end.
Proof.
  intros Hp Hlen. unfold sample.
  rewrite (bind_ok (read_list p) _ w pop w)
    by (unfold read_list; by rewrite (items_lookup _ _ _ Hp)).
  rewrite decide_True by lia. change (setsize 2) with 21.
  case_decide as Hn.
  - set (w1 := set_strs (strs w ++ [pop]) w).
    rewrite (bind_ok (new_list pop) _ w (length (strs w)) w1 eq_refl).
    destruct (sample_pool_spec (length (strs w)) (length pop) 2 0 w1 pop)
      as (res & xs' & w2 & Hrun & Hs & Hl & Hperm & _);
      [subst w1; cbn; by apply list_lookup_middle | lia | lia |].
    rewrite (bind_ok _ _ _ _ _ Hrun). cbn.
    rewrite Nat.sub_0_r, firstn_all in Hperm.
    assert (Hsub : res ⊆+ pop).
    { rewrite <- Hperm. by apply submseteq_inserts_r. }
    assert (Hres : length res = 2).
    { apply Permutation_length in Hperm.
      rewrite length_app, length_take in Hperm. lia. }
    destruct res as [|a [|b [|c res]]]; try done.
    exists a, b. split; [by apply list_lookup_middle | done].
  - destruct (sample_set_spec p (length pop) 2 [] w)
      as (r & w1 & Hrun & Hs & _ & _ & Hr);
      [by rewrite (items_lookup _ _ _ Hp) | lia |].
    destruct r as [res|e|]; [|done|].
    2:{ rewrite (bind_diverge _ _ _ _ Hrun). lia. }
    rewrite (bind_ok _ _ _ _ _ Hrun). cbn.
    destruct Hr as (js & Hjs & Hnd & _ & Hall).
    rewrite (items_lookup _ _ _ Hp) in Hall.
    assert (Hsub : res ⊆+ pop) by (by eapply picked_submseteq).
    apply Forall2_length in Hall.
    destruct res as [|a [|b [|c res]]]; cbn in Hall; try lia.
    exists a, b. split; [by apply list_lookup_middle | done].
Qed.

Lemma sample_is_part_of_population_witness :
  match sample 0 2 (World [["a"; "a"; "b"]] [] [0; 1] []) with
  | (Ok r, w') =>
      exists a b, strs w' !! r = Some [a; b] /\ [a; b] ⊆+ ["a"; "a"; "b"]
  | (Raise _, _) => False
  | (Diverge, _) => 21 < length ["a"; "a"; "b"]
  end.
Proof.
  apply (sample_is_part_of_population (World [["a"; "a"; "b"]] [] [0; 1] []) 0
           ["a"; "a"; "b"]); [reflexivity | vm_compute; lia].
Defined.
